(** * Presence and routing in the messanung web messenger

    A shallow embedding of the socket.io part of [web_messenger_app.js]
    (the [io.on('connection', ...)] block and the [onlineUsers] object) and
    the properties of its presence registry and message routing. *)

From stdpp Require Import gmap strings list fin_maps.

Open Scope string_scope.

(** ** JavaScript values

    The payload of an inbound socket.io event is what the client put on the
    wire: a JSON value, or nothing at all, in which case the listener's
    parameter is [undefined].  (Binary attachments and acknowledgement
    callbacks are left out.) *)

#[local] Set Warnings "-register-all".
Inductive JsValue :=
  | JUndefined
  | JNull
  | JBool (b : bool)
  | JNum (repr : string)   (* a number, carried as the string Number::toString gives for it *)
  | JStr (s : string)
  | JArr (elems : list JsValue)
  | JObj (props : list (string * JsValue)).

(** Abrupt and normal completion of a listener or of an abstract operation
    of the language: the only exception the modelled code can raise is a
    [TypeError], and nothing in the source catches it. *)
Inductive Completion (A : Type) :=
  | Normal (a : A)
  | ThrowTypeError.
Arguments Normal {A} a.
Arguments ThrowTypeError {A}.

#[global] Instance Completion_bind : MBind Completion := fun A B k c =>
  match c with
  | Normal a => k a
  | ThrowTypeError => ThrowTypeError
  end.

(** Own property [name] of an object built by [JSON.parse]. *)
Fixpoint own_prop (name : string) (props : list (string * JsValue)) : option JsValue :=
  match props with
  | [] => None
  | (k, v) :: rest => if String.eqb k name then Some v else own_prop name rest
  end.

(** [ToString] on a payload value.  An array goes through
    [Array.prototype.join], which prints [undefined] and [null] elements as
    the empty string.  A plain object goes through [OrdinaryToPrimitive]:
    [Object.prototype.toString] answers ["[object Object]"], unless the object
    has an own property [toString]; coming from JSON that property is not
    callable, [valueOf] does not yield a primitive either, and the conversion
    ends in a [TypeError]. *)
Fixpoint ToString (v : JsValue) : Completion string :=
  match v with
  | JUndefined => Normal "undefined"
  | JNull => Normal "null"
  | JBool true => Normal "true"
  | JBool false => Normal "false"
  | JNum repr => Normal repr
  | JStr s => Normal s
  | JArr elems =>
      (fix join (l : list JsValue) : Completion string :=
         match l with
         | [] => Normal ""
         | x :: rest =>
             next ← match x with
                    | JUndefined | JNull => Normal ""
                    | _ => ToString x
                    end;
             match rest with
             | [] => Normal next
             | _ => tail ← join rest; Normal (next ++ "," ++ tail)
             end
         end) elems
  | JObj props =>
      match own_prop "toString" props with
      | Some _ => ThrowTypeError
      | None => Normal "[object Object]"
      end
  end.

(** [ToPropertyKey]: the coercion applied to [k] in [obj[k]].  No payload
    value is a Symbol, so this is [ToString]. *)
Definition ToPropertyKey (v : JsValue) : Completion string := ToString v.


(** ** The server state

    [sockets] are the sockets connected to the namespace, by [socket.id],
    each with the value of its [nickname] property ([undefined] until a
    [join] assigns it); socket.io keeps them in a [Map] keyed by id.
    [onlineUsers] holds the own properties of the object of that name:
    nickname -> socket.id. *)
Record Server := {
  sockets : gmap string JsValue;
  onlineUsers : gmap string string
}.

(** [const onlineUsers = {};] and no connection yet. *)
Definition init : Server := {| sockets := ∅; onlineUsers := ∅ |}.

(** The value of [socket.nickname]. *)
Definition nickname_of (st : Server) (sid : string) : JsValue :=
  default JUndefined (sockets st !! sid).

(** *** [onlineUsers] as a JavaScript object

    [onlineUsers] is created by an object literal, so its prototype is
    [Object.prototype]; these are the property names found there. *)
Definition Object_prototype : list string :=
  [ "constructor"; "__defineGetter__"; "__defineSetter__"; "hasOwnProperty";
    "__lookupGetter__"; "__lookupSetter__"; "isPrototypeOf";
    "propertyIsEnumerable"; "toString"; "valueOf"; "__proto__";
    "toLocaleString" ].

(** What [onlineUsers[key]] evaluates to. *)
Inductive RegValue :=
  | RUndefined
  | RSocketId (sid : string)     (* an own property: a socket.id stored by [join] *)
  | RInherited (name : string).  (* found on [Object.prototype] *)

(** [onlineUsers[key]]: the own property, else the prototype's, else
    [undefined]. *)
Definition obj_get (o : gmap string string) (key : string) : RegValue :=
  match o !! key with
  | Some sid => RSocketId sid
  | None => if bool_decide (key ∈ Object_prototype) then RInherited key else RUndefined
  end.

(** [onlineUsers[key] = sid].  [__proto__] is an accessor of
    [Object.prototype] whose setter ignores a value that is neither an object
    nor [null]: the assignment of a string under that key creates no
    property.  Every other name of [Object.prototype] is a writable data
    property, so the assignment creates or overwrites the own property. *)
Definition obj_set (o : gmap string string) (key sid : string) : gmap string string :=
  if String.eqb key "__proto__" then o else <[key := sid]> o.

(** [delete onlineUsers[key]]. *)
Definition obj_delete (o : gmap string string) (key : string) : gmap string string :=
  delete key o.

(** [ToBoolean], for the test [if (targetId)]: [undefined] and the empty
    string are falsy, an object or a function is truthy. *)
Definition ToBoolean (v : RegValue) : bool :=
  match v with
  | RUndefined => false
  | RSocketId sid => negb (String.eqb sid "")
  | RInherited _ => true
  end.

(** ** Outbound events *)

Inductive OutEvent :=
  | OutGlobalMessage (user text : JsValue)    (* 'globalMessage', { user, text } *)
  | OutPrivateMessage (from text : JsValue).  (* 'privateMessage', { from, text } *)

(** The sender field of an outbound event. *)
Definition sender (ev : OutEvent) : JsValue :=
  match ev with
  | OutGlobalMessage user _ => user
  | OutPrivateMessage from _ => from
  end.

(** The calls a listener makes on [io]. *)
Inductive Emit :=
  | IoEmit (ev : OutEvent)                      (* io.emit(...) *)
  | IoToEmit (room : RegValue) (ev : OutEvent). (* io.to(room).emit(...) *)

(** Who receives an emit.  [io.emit] reaches every socket connected to the
    namespace.  [io.to(room)] reaches the sockets in [room]; the source never
    calls [socket.join], so a socket is in one room only, the one named by
    its id. *)
Definition recipients (st : Server) (e : Emit) : list (string * OutEvent) :=
  match e with
  | IoEmit ev => (λ sid, (sid, ev)) <$> elements (dom (sockets st))
  | IoToEmit (RSocketId room) ev =>
      if bool_decide (is_Some (sockets st !! room)) then [(room, ev)] else []
  | IoToEmit _ _ => []
  end.

Definition deliveries (st : Server) (out : list Emit) : list (string * OutEvent) :=
  out ≫= recipients st.

(** The event an emit carries. *)
Definition emitted (e : Emit) : OutEvent :=
  match e with
  | IoEmit ev | IoToEmit _ ev => ev
  end.

(** ** The listeners of [io.on('connection', (socket) => ...)]

    Each takes the state, the id of the socket it closes over and the
    event's payload, and gives the new state and the emits made, or throws. *)

(** [socket.on('join', (nickname) => ...)] *)
Definition on_join (st : Server) (sid : string) (nickname : JsValue)
    : Completion (Server * list Emit) :=
  let st1 := {| sockets := <[sid := nickname]> (sockets st);
                onlineUsers := onlineUsers st |} in
  key ← ToPropertyKey nickname;
  Normal ({| sockets := sockets st1;
             onlineUsers := obj_set (onlineUsers st1) key sid |}, []).

(** [socket.on('globalMessage', (msg) => ...)] *)
Definition on_globalMessage (st : Server) (sid : string) (msg : JsValue)
    : Completion (Server * list Emit) :=
  Normal (st, [IoEmit (OutGlobalMessage (nickname_of st sid) msg)]).

(** The parameter pattern [({ to, text })]: binding it to [undefined] or
    [null] throws; on any other value the two properties are read, and a
    property that is not there reads as [undefined] (no prototype of a
    payload value has a [to] or a [text]). *)
Definition destructure (payload : JsValue) : Completion (JsValue * JsValue) :=
  match payload with
  | JUndefined | JNull => ThrowTypeError
  | JObj props =>
      Normal (default JUndefined (own_prop "to" props),
              default JUndefined (own_prop "text" props))
  | _ => Normal (JUndefined, JUndefined)
  end.

(** [socket.on('privateMessage', ({ to, text }) => ...)] *)
Definition on_privateMessage (st : Server) (sid : string) (payload : JsValue)
    : Completion (Server * list Emit) :=
  '(to, text) ← destructure payload;
  key ← ToPropertyKey to;
  let targetId := obj_get (onlineUsers st) key in
  if ToBoolean targetId then
    Normal (st, [IoToEmit targetId (OutPrivateMessage (nickname_of st sid) text)])
  else Normal (st, []).

(** [socket.on('disconnect', () => ...)] *)
Definition on_disconnect (st : Server) (sid : string)
    : Completion (Server * list Emit) :=
  key ← ToPropertyKey (nickname_of st sid);
  Normal ({| sockets := sockets st;
             onlineUsers := obj_delete (onlineUsers st) key |}, []).

(** ** Events and their dispatch *)

Inductive Event :=
  | EvConnection (sid : string)
  | EvJoin (sid : string) (nickname : JsValue)
  | EvGlobalMessage (sid : string) (msg : JsValue)
  | EvPrivateMessage (sid : string) (payload : JsValue)
  | EvDisconnect (sid : string).

Definition connected (st : Server) (sid : string) : bool :=
  bool_decide (is_Some (sockets st !! sid)).

(** socket.io's part.  A connection adds the socket, with no [nickname];
    ids are generated by socket.io, twenty characters each and unique, so a
    connection under the empty id or under the id of a connected socket does
    not occur and changes nothing here.  An event of a socket that is not
    connected is not dispatched.  After the [disconnect] listener the socket
    is gone from the namespace. *)
Definition handle (e : Event) (st : Server) : Completion (Server * list Emit) :=
  match e with
  | EvConnection sid =>
      if String.eqb sid "" || connected st sid then Normal (st, [])
      else Normal ({| sockets := <[sid := JUndefined]> (sockets st);
                      onlineUsers := onlineUsers st |}, [])
  | EvJoin sid nickname =>
      if connected st sid then on_join st sid nickname else Normal (st, [])
  | EvGlobalMessage sid msg =>
      if connected st sid then on_globalMessage st sid msg else Normal (st, [])
  | EvPrivateMessage sid payload =>
      if connected st sid then on_privateMessage st sid payload else Normal (st, [])
  | EvDisconnect sid =>
      if connected st sid then
        '(st1, out) ← on_disconnect st sid;
        Normal ({| sockets := delete sid (sockets st1);
                   onlineUsers := onlineUsers st1 |}, out)
      else Normal (st, [])
  end.

(** A sequence of events, one after the other, with the log of what each
    socket was sent; an exception ends the run. *)
Fixpoint run (tr : list Event) (st : Server)
    : Completion (Server * list (string * OutEvent)) :=
  match tr with
  | [] => Normal (st, [])
  | e :: tr' =>
      '(st1, out) ← handle e st;
      '(st2, log) ← run tr' st1;
      Normal (st2, (deliveries st out ++ log)%list)
  end.

(** The states the server can be in. *)
Inductive reachable : Server → Prop :=
  | reachable_init : reachable init
  | reachable_step st e st' out :
      reachable st → handle e st = Normal (st', out) → reachable st'.

(** The invariant of the reachable states.

    No own property is ever created under [__proto__], every registered
    value is a non-empty id (that of the socket that joined), and no socket
    has the empty id. *)
Record registry_inv (st : Server) : Prop := {
  inv_no_proto : onlineUsers st !! "__proto__" = None;
  inv_ids : ∀ key sid, onlineUsers st !! key = Some sid → sid ≠ "";
  inv_sockets : sockets st !! "" = None
}.

(** The state a run from [st] ends in ([st] itself when it throws). *)
Definition state_after (tr : list Event) (st : Server) : Server :=
  match run tr st with
  | Normal (st', _) => st'
  | ThrowTypeError => st
  end.

(** Events of socket [sid] that assign or discard its [nickname]. *)
Definition rebinds (sid : string) (e : Event) : bool :=
  match e with
  | EvJoin sid' _ | EvDisconnect sid' => String.eqb sid' sid
  | _ => false
  end.

(** The connection event of socket [sid]. *)
Definition is_connection_of (sid : string) (e : Event) : bool :=
  match e with
  | EvConnection sid' => String.eqb sid' sid
  | _ => false
  end.

(** The events of the two message listeners. *)
Definition is_message (e : Event) : bool :=
  match e with
  | EvGlobalMessage _ _ | EvPrivateMessage _ _ => true
  | _ => false
  end.

(** Every [nickname] held by a connected socket has a property key. *)
Definition nicknames_have_keys (st : Server) : Prop :=
  ∀ sid v, sockets st !! sid = Some v → ∃ key, ToPropertyKey v = Normal key.

(** One socket joining under each of the handles [hs] in turn. *)
Definition joins (sid : string) (hs : list string) : list Event :=
  (λ h, EvJoin sid (JStr h)) <$> hs.

(** ** The HTTP routes

    [users] holds the own properties of the object of that name, nickname ->
    { passwordHash }; [sessions] holds, for each session, the [user] property
    of [req.session] (absent until a route assigns it). *)
Record Site := {
  users : gmap string string;
  sessions : gmap string JsValue
}.

(** [const users = {};] and no session yet. *)
Definition site_init : Site := {| users := ∅; sessions := ∅ |}.

(** [req.session.user] *)
Definition session_user (st : Site) (sess : string) : JsValue :=
  default JUndefined (sessions st !! sess).

(** [ToBoolean] on a value of a request: [undefined], [null], [false], zero,
    [NaN] and the empty string are falsy. *)
Definition truthy (v : JsValue) : bool :=
  match v with
  | JUndefined | JNull => false
  | JBool b => b
  | JNum repr => negb (String.eqb repr "0" || String.eqb repr "NaN")
  | JStr s => negb (String.eqb s "")
  | JArr _ | JObj _ => true
  end.

(** What [users[key]] evaluates to. *)
Inductive UserValue :=
  | UUndefined
  | UUser (passwordHash : string)  (* an own property, { passwordHash } *)
  | UInherited (name : string).    (* found on [Object.prototype] *)

(** [users[key]], as [onlineUsers[key]] above. *)
Definition users_get (o : gmap string string) (key : string) : UserValue :=
  match o !! key with
  | Some hash => UUser hash
  | None => if bool_decide (key ∈ Object_prototype) then UInherited key else UUndefined
  end.

(** [user.passwordHash]: no member of [Object.prototype] has that property. *)
Definition passwordHash_of (user : UserValue) : option string :=
  match user with
  | UUser hash => Some hash
  | _ => None
  end.

(** A property of [req.body], the object a body parser built. *)
Definition body_field (name : string) (body : list (string * JsValue)) : JsValue :=
  default JUndefined (own_prop name body).

Inductive Response :=
  | redirect (path : string)       (* res.redirect(path) *)
  | send (text : string)           (* res.send(text) *)
  | send_authPage                  (* res.send(authPage()) *)
  | send_chatPage (user : string)  (* res.send(chatPage(user)), [user] as spliced into the page *)
  | json (names : list string).    (* res.json(names) *)

(** What a call of an [async] route handler comes to: a response sent (with
    the state it leaves), a rejected promise, or an [await] on bcrypt, with
    the rest of the handler as a function of what bcrypt answers and of the
    state at that later moment. *)
Inductive Async :=
  | Responds (st : Site) (r : Response)
  | Rejects
  | AwaitHash (data : JsValue) (k : string → Site → Async)
  | AwaitCompare (data : JsValue) (hash : option string) (k : bool → Site → Async).

(** [app.post('/register', async (req, res) => ...)].  The assignment
    [users[nickname] = ...] is reached only under a key for which
    [users[nickname]] was [undefined], which no name of [Object.prototype]
    is: it always creates or overwrites an own property. *)
Definition post_register (sess : string) (body : list (string * JsValue)) (st : Site)
    : Async :=
  let nickname := body_field "nickname" body in
  let password := body_field "password" body in
  match ToPropertyKey nickname with
  | ThrowTypeError => Rejects
  | Normal key =>
      match users_get (users st) key with
      | UUndefined =>
          AwaitHash password (λ hash st',
            Responds {| users := <[key := hash]> (users st');
                        sessions := <[sess := nickname]> (sessions st') |}
                     (redirect "/chat"))
      | _ => Responds st (send "Nickname already exists")
      end
  end.

(** [app.post('/login', async (req, res) => ...)] *)
Definition post_login (sess : string) (body : list (string * JsValue)) (st : Site)
    : Async :=
  let nickname := body_field "nickname" body in
  let password := body_field "password" body in
  match ToPropertyKey nickname with
  | ThrowTypeError => Rejects
  | Normal key =>
      match users_get (users st) key with
      | UUndefined => Responds st (send "Invalid credentials")
      | user =>
          AwaitCompare password (passwordHash_of user) (λ valid st',
            if valid then
              Responds {| users := users st';
                          sessions := <[sess := nickname]> (sessions st') |}
                       (redirect "/chat")
            else Responds st' (send "Invalid credentials"))
      end
  end.

(** [function requireAuth(req, res, next)] *)
Definition requireAuth (st : Site) (sess : string) (next : Completion Response)
    : Completion Response :=
  if negb (truthy (session_user st sess)) then Normal (redirect "/") else next.

(** [app.get('/', (req, res) => ...)] *)
Definition get_root (st : Site) (sess : string) : Response :=
  if truthy (session_user st sess) then redirect "/chat" else send_authPage.

(** [app.get('/chat', requireAuth, (req, res) => ...)]; the template of
    [chatPage] applies [ToString] to [user]. *)
Definition get_chat (st : Site) (sess : string) : Completion Response :=
  requireAuth st sess
    (user ← ToString (session_user st sess); Normal (send_chatPage user)).

(** [s.includes(sub)] *)
Fixpoint includes (s sub : string) : bool :=
  String.prefix sub s ||
  match s with
  | EmptyString => false
  | String _ rest => includes rest sub
  end.

(** [app.get('/search', requireAuth, (req, res) => ...)], with [q] for
    [req.query.q].  [toLowerCase] is the method of that name.  The names come
    in the order of [elements], not in the enumeration order of
    [Object.keys].  The callback of [filter] runs once per key, so a [query]
    without [toLowerCase] throws only when there is a key. *)
Definition get_search (toLowerCase : string → string)
    (st : Site) (sess : string) (q : JsValue) : Completion Response :=
  requireAuth st sess
    (let query := if truthy q then q else JStr "" in
     match elements (dom (users st)) with
     | [] => Normal (json [])
     | keys =>
         match query with
         | JStr s =>
             Normal (json (List.filter
                             (λ n, includes (toLowerCase n) (toLowerCase s)) keys))
         | _ => ThrowTypeError
         end
     end).

(** *** bcrypt and the event loop *)

(** [bcrypt.hash(data, 10)] under the salt it generates, [bcrypt.compare],
    and what relates them. *)
Class Bcrypt := {
  bcrypt_hash : string → string → string;
  bcrypt_compare : string → string → bool;
  bcrypt_compare_hash : ∀ data salt, bcrypt_compare data (bcrypt_hash data salt) = true
}.

(** The pending bcrypt call settles and the handler goes on, in the state
    of that moment.  bcrypt rejects data or a hash that is not a string. *)
Definition bcrypt_settle `{Bcrypt} (salt : string) (a : Async) (st : Site) : Async :=
  match a with
  | AwaitHash (JStr data) k => k (bcrypt_hash data salt) st
  | AwaitHash _ _ => Rejects
  | AwaitCompare (JStr data) (Some hash) k => k (bcrypt_compare data hash) st
  | AwaitCompare _ _ _ => Rejects
  | _ => a
  end.

(** A handler that meets no other request while it waits. *)
Definition alone `{Bcrypt} (salt : string) (handler : Site → Async) (st : Site) : Async :=
  bcrypt_settle salt (handler st) st.

(** The state, the handlers waiting on bcrypt, and the responses sent so
    far. *)
Record World := {
  site : Site;
  pending : list Async;
  sent : list Response
}.

Definition world_init : World := {| site := site_init; pending := []; sent := [] |}.

Inductive LoopEvent :=
  | PostRegister (sess : string) (body : list (string * JsValue))
  | PostLogin (sess : string) (body : list (string * JsValue))
  | Settle (i : nat) (salt : string).  (* the i-th pending call settles *)

(** Where a handler stands after it ran as far as it can. *)
Definition absorb (a : Async) (w : World) : World :=
  match a with
  | Responds st r =>
      {| site := st; pending := pending w; sent := (sent w ++ [r])%list |}
  | Rejects => w
  | _ => {| site := site w; pending := (pending w ++ [a])%list; sent := sent w |}
  end.

Definition loop `{Bcrypt} (ev : LoopEvent) (w : World) : World :=
  match ev with
  | PostRegister sess body => absorb (post_register sess body (site w)) w
  | PostLogin sess body => absorb (post_login sess body (site w)) w
  | Settle i salt =>
      match pending w !! i with
      | Some a =>
          absorb (bcrypt_settle salt a (site w))
                 {| site := site w; pending := delete i (pending w); sent := sent w |}
      | None => w
      end
  end.

Definition loop_run `{Bcrypt} (evs : list LoopEvent) (w : World) : World :=
  foldl (λ w ev, loop ev w) w evs.

(** What the routes keep true of the state: no account sits under a name
    of [Object.prototype], and the user of every session is a value with a
    property key under which an account exists. *)
Record site_inv (st : Site) : Prop := {
  inv_no_prototype_name : ∀ key, key ∈ Object_prototype → users st !! key = None;
  inv_session_account :
    ∀ sess v, sessions st !! sess = Some v →
              ∃ key, ToPropertyKey v = Normal key ∧ is_Some (users st !! key)
}.

(** A waiting handler that, whenever bcrypt settles in a state with at
    least the accounts of [st], keeps [site_inv] and loses no account. *)
Definition settles_well `{Bcrypt} (st : Site) (a : Async) : Prop :=
  ∀ salt st', site_inv st' → dom (users st) ⊆ dom (users st') →
    match bcrypt_settle salt a st' with
    | Responds st'' _ => site_inv st'' ∧ dom (users st') ⊆ dom (users st'')
    | Rejects => True
    | _ => False
    end.

Definition world_inv `{Bcrypt} (w : World) : Prop :=
  site_inv (site w) ∧ Forall (settles_well (site w)) (pending w).

(** A handler, when it starts, answers at once and changes
    nothing, or rejects, or waits well. *)
Definition starts_well `{Bcrypt} (st : Site) (a : Async) : Prop :=
  match a with
  | Responds st' _ => st' = st
  | Rejects => True
  | _ => settles_well st a
  end.

(** A stand-in for bcrypt, to run examples with. *)
Definition plain_bcrypt : Bcrypt := {|
  bcrypt_hash := λ data _, data;
  bcrypt_compare := λ data hash, String.eqb data hash;
  bcrypt_compare_hash := λ data _, String.eqb_refl data
|}.

(** ** Basic facts *)

Lemma connected_spec st sid : connected st sid = true ↔ is_Some (sockets st !! sid).
Proof. unfold connected. by rewrite bool_decide_eq_true. Qed.

Lemma connected_false st sid : connected st sid = false ↔ sockets st !! sid = None.
Proof.
  unfold connected. rewrite bool_decide_eq_false, eq_None_not_Some. done.
Qed.

Lemma connected_nickname st sid :
  connected st sid = true → sockets st !! sid = Some (nickname_of st sid).
Proof.
  rewrite connected_spec. intros [v Hv]. unfold nickname_of. by rewrite Hv.
Qed.

Lemma eqb_false_ne (a b : string) : a ≠ b → String.eqb a b = false.
Proof. intros Hne. by apply String.eqb_neq. Qed.

Lemma obj_get_own o key sid : o !! key = Some sid → obj_get o key = RSocketId sid.
Proof. intros Hk. unfold obj_get. by rewrite Hk. Qed.

Lemma obj_get_absent o key :
  o !! key = None → obj_get o key = RUndefined ∨ obj_get o key = RInherited key.
Proof. intros Hk. unfold obj_get. rewrite Hk. case_bool_decide; auto. Qed.

Lemma obj_set_lookup o key sid :
  key ≠ "__proto__" → obj_set o key sid !! key = Some sid.
Proof.
  intros Hne. unfold obj_set. rewrite (eqb_false_ne _ _ Hne).
  apply lookup_insert_eq.
Qed.

Lemma obj_set_lookup_ne o key sid key' :
  key' ≠ key → obj_set o key sid !! key' = o !! key'.
Proof.
  intros Hne. unfold obj_set. destruct (String.eqb key "__proto__"); [done|].
  by apply lookup_insert_ne.
Qed.

Lemma obj_set_proto o sid : obj_set o "__proto__" sid = o.
Proof. reflexivity. Qed.

(** *** The listeners on a connected socket *)

Lemma handle_join st sid (H : string) :
  connected st sid = true →
  handle (EvJoin sid (JStr H)) st =
    Normal ({| sockets := <[sid := JStr H]> (sockets st);
               onlineUsers := obj_set (onlineUsers st) H sid |}, []).
Proof. intros Hc. simpl. by rewrite Hc. Qed.

Lemma handle_disconnect st sid (H : string) :
  sockets st !! sid = Some (JStr H) →
  handle (EvDisconnect sid) st =
    Normal ({| sockets := delete sid (sockets st);
               onlineUsers := delete H (onlineUsers st) |}, []).
Proof.
  intros Hs. simpl. unfold connected. rewrite bool_decide_eq_true_2 by eauto.
  unfold on_disconnect, nickname_of. rewrite Hs. reflexivity.
Qed.

Lemma handle_disconnect_undefined st sid :
  sockets st !! sid = Some JUndefined →
  handle (EvDisconnect sid) st =
    Normal ({| sockets := delete sid (sockets st);
               onlineUsers := delete "undefined" (onlineUsers st) |}, []).
Proof.
  intros Hs. simpl. unfold connected. rewrite bool_decide_eq_true_2 by eauto.
  unfold on_disconnect, nickname_of. rewrite Hs. reflexivity.
Qed.

Lemma handle_globalMessage st sid msg :
  connected st sid = true →
  handle (EvGlobalMessage sid msg) st =
    Normal (st, [IoEmit (OutGlobalMessage (nickname_of st sid) msg)]).
Proof. intros Hc. simpl. by rewrite Hc. Qed.

(** *** Who receives what *)

Lemma deliveries_io_emit st ev :
  NoDup (deliveries st [IoEmit ev]) ∧
  ∀ c e, (c, e) ∈ deliveries st [IoEmit ev] ↔ connected st c = true ∧ e = ev.
Proof.
  unfold deliveries. simpl. rewrite app_nil_r. split.
  - apply NoDup_fmap_2; [intros ?? [=]; done | apply NoDup_elements].
  - intros c e. rewrite list_elem_of_fmap, connected_spec. split.
    + intros (x & [= -> ->] & Hx). split; [|done].
      by apply elem_of_dom, elem_of_elements.
    + intros [Hc ->]. exists c. split; [done|].
      by apply elem_of_elements, elem_of_dom.
Qed.

Lemma deliveries_io_to st room ev c e :
  (c, e) ∈ deliveries st [IoToEmit room ev] →
  room = RSocketId c ∧ e = ev ∧ connected st c = true.
Proof.
  unfold deliveries. simpl. rewrite app_nil_r.
  destruct room as [|r|n]; simpl; try (by intros ?%elem_of_nil).
  case_bool_decide as Hr; [|by intros ?%elem_of_nil].
  intros [= -> ->]%list_elem_of_singleton. by rewrite connected_spec.
Qed.

Lemma recipients_emitted st em c e : (c, e) ∈ recipients st em → e = emitted em.
Proof.
  destruct em as [ev|room ev]; simpl.
  - rewrite list_elem_of_fmap. by intros (x & [= _ ->] & _).
  - destruct room as [|r|n]; try (by intros ?%elem_of_nil).
    case_bool_decide; [|by intros ?%elem_of_nil].
    by intros [= _ ->]%list_elem_of_singleton.
Qed.

Lemma deliveries_emitted st out c e :
  (c, e) ∈ deliveries st out → ∃ em, em ∈ out ∧ e = emitted em.
Proof.
  unfold deliveries. rewrite list_elem_of_bind. intros (em & Hr & Hem).
  exists em. split; [done|]. by eapply recipients_emitted.
Qed.

Lemma handle_privateMessage st sid payload :
  connected st sid = true →
  handle (EvPrivateMessage sid payload) st = on_privateMessage st sid payload.
Proof. intros Hc. simpl. by rewrite Hc. Qed.

Lemma privateMessage_emits st sid payload st' out :
  on_privateMessage st sid payload = Normal (st', out) →
  st' = st ∧ Forall (λ em, sender (emitted em) = nickname_of st sid) out.
Proof.
  unfold on_privateMessage.
  destruct (destructure payload) as [[to text]|]; [|done]. simpl.
  destruct (ToPropertyKey to) as [key|]; [|done]. simpl.
  destruct (ToBoolean _); intros [= <- <-]; split; auto.
Qed.

(** ** The invariant holds in every reachable state *)

Lemma init_inv : registry_inv init.
Proof. split; simpl; [done | | done]. intros key sid. by rewrite lookup_empty. Qed.

Lemma obj_set_inv o key sid :
  o !! "__proto__" = None → obj_set o key sid !! "__proto__" = None.
Proof.
  intros Ho. unfold obj_set. destruct (String.eqb key "__proto__") eqn:Hk; [done|].
  apply String.eqb_neq in Hk. by rewrite lookup_insert_ne.
Qed.

Lemma obj_set_ids o key sid :
  sid ≠ "" → (∀ k v, o !! k = Some v → v ≠ "") →
  ∀ k v, obj_set o key sid !! k = Some v → v ≠ "".
Proof.
  intros Hsid Ho k v. unfold obj_set. destruct (String.eqb key "__proto__"); [apply Ho|].
  destruct (decide (key = k)) as [->|Hne].
  - rewrite lookup_insert_eq. by intros [= <-].
  - rewrite lookup_insert_ne by done. apply Ho.
Qed.

Lemma handle_inv e st st' out :
  registry_inv st → handle e st = Normal (st', out) → registry_inv st'.
Proof.
  intros [Hp Hi Hs] He. destruct e as [sid|sid nickname|sid msg|sid payload|sid]; simpl in He.
  - destruct (String.eqb sid "") eqn:Hsid; simpl in He.
    + by injection He as <- <-.
    + destruct (connected st sid); injection He as <- <-; [done|].
      apply String.eqb_neq in Hsid. split; simpl; [done..|].
      by rewrite lookup_insert_ne.
  - destruct (connected st sid) eqn:Hc; [|by injection He as <- <-].
    assert (sid ≠ "") as Hsid.
    { intros ->. apply connected_spec in Hc. rewrite Hs in Hc. by destruct Hc. }
    unfold on_join in He. destruct (ToPropertyKey nickname) as [key|]; [|done].
    injection He as <- <-. split; simpl.
    + by apply obj_set_inv.
    + by apply obj_set_ids.
    + by rewrite lookup_insert_ne.
  - destruct (connected st sid); by injection He as <- <-.
  - destruct (connected st sid); [|by injection He as <- <-].
    unfold on_privateMessage in He.
    destruct (destructure payload) as [[to text]|]; [|done]. simpl in He.
    destruct (ToPropertyKey to) as [key|]; [|done]. simpl in He.
    destruct (ToBoolean _); by injection He as <- <-.
  - destruct (connected st sid); [|by injection He as <- <-].
    unfold on_disconnect in He.
    destruct (ToPropertyKey (nickname_of st sid)) as [key|]; [|done].
    injection He as <- <-. split; simpl.
    + unfold obj_delete. rewrite lookup_delete_None. by right.
    + intros k v. unfold obj_delete. rewrite lookup_delete_Some. intros [_ Hk]. eauto.
    + rewrite lookup_delete_None. by right.
Qed.

Lemma reachable_inv st : reachable st → registry_inv st.
Proof.
  induction 1 as [|st e st' out _ IH He]; [apply init_inv|].
  by eapply handle_inv.
Qed.

(** *** Runs *)

Lemma run_cons e tr st st' log :
  run (e :: tr) st = Normal (st', log) →
  ∃ st1 out log', handle e st = Normal (st1, out) ∧
                  run tr st1 = Normal (st', log').
Proof.
  simpl. destruct (handle e st) as [[st1 out]|]; [|done]. simpl.
  destruct (run tr st1) as [[st2 log']|] eqn:Hr; [|done]. simpl.
  intros [= <- _]. by exists st1, out, log'.
Qed.

Lemma run_reachable tr st st' log :
  reachable st → run tr st = Normal (st', log) → reachable st'.
Proof.
  revert st log. induction tr as [|e tr IH]; intros st log Hst Hr.
  - by injection Hr as <- _.
  - apply run_cons in Hr as (st1 & out & log' & He & Hr).
    eapply IH; [|done]. by eapply reachable_step.
Qed.

(** Only its own [join] and [disconnect] touch a socket's [nickname]. *)
Lemma handle_keeps_nickname e st st' out sid v :
  rebinds sid e = false →
  handle e st = Normal (st', out) →
  sockets st !! sid = Some v → sockets st' !! sid = Some v.
Proof.
  intros Hre He Hv. destruct e as [c|c nickname|c msg|c payload|c]; simpl in He, Hre.
  - destruct (String.eqb c "" || connected st c) eqn:Hc; injection He as <- <-; [done|].
    simpl. apply orb_false_iff in Hc as [_ Hc]. apply connected_false in Hc.
    rewrite lookup_insert_ne; [done | congruence].
  - apply String.eqb_neq in Hre.
    destruct (connected st c); [|by injection He as <- <-].
    unfold on_join in He. destruct (ToPropertyKey nickname); [|done].
    injection He as <- <-. simpl. by rewrite lookup_insert_ne.
  - destruct (connected st c); by injection He as <- <-.
  - destruct (connected st c); [|by injection He as <- <-].
    unfold on_privateMessage in He.
    destruct (destructure payload) as [[to text]|]; [|done]. simpl in He.
    destruct (ToPropertyKey to); [|done]. simpl in He.
    destruct (ToBoolean _); by injection He as <- <-.
  - apply String.eqb_neq in Hre.
    destruct (connected st c); [|by injection He as <- <-].
    unfold on_disconnect in He. destruct (ToPropertyKey _); [|done].
    injection He as <- <-. simpl. by rewrite lookup_delete_ne.
Qed.

Lemma run_keeps_nickname tr st st' log sid v :
  Forall (λ e, rebinds sid e = false) tr →
  run tr st = Normal (st', log) →
  sockets st !! sid = Some v → sockets st' !! sid = Some v.
Proof.
  revert st log. induction tr as [|e tr IH]; intros st log Htr Hr Hv.
  - by injection Hr as <- _.
  - apply Forall_cons in Htr as [He Htr].
    apply run_cons in Hr as (st1 & out & log' & Hh & Hr).
    eapply IH; [done.. |]. by eapply handle_keeps_nickname.
Qed.

(** ** Presence registry: join and disconnect *)

(** C1, as stated, fails: with two sockets joined under "alice", first
    "c1" and then "c2", the registry maps "alice" to "c2"; the disconnect of
    the superseded socket "c1" then deletes that entry. *)
Lemma stale_disconnect_erases_newer_registration :
  ∃ st2 st3 log,
    run [EvConnection "c1"; EvConnection "c2";
         EvJoin "c1" (JStr "alice"); EvJoin "c2" (JStr "alice")] init
      = Normal (st2, log) ∧
    onlineUsers st2 !! "alice" = Some "c2" ∧
    handle (EvDisconnect "c1") st2 = Normal (st3, []) ∧
    onlineUsers st3 !! "alice" = None.
Proof. do 3 eexists. repeat split; vm_compute; reflexivity. Qed.

(** C1, amended: for every handle [H] and distinct connected sockets [C1],
    [C2], after [C1] and then [C2] joined under [H] (which, for [H] other
    than "__proto__", leaves [H] mapped to [C2]), the disconnect of either
    socket deletes the entry of [H] and no other entry: the listener deletes
    the entry under the disconnecting socket's nickname without comparing
    the socket registered there with the disconnecting one. *)
Theorem disconnect_deletes_without_tie_break (st : Server) (H C1 C2 : string) :
  C1 ≠ C2 → connected st C1 = true → connected st C2 = true →
  ∃ st1 st2,
    handle (EvJoin C1 (JStr H)) st = Normal (st1, []) ∧
    handle (EvJoin C2 (JStr H)) st1 = Normal (st2, []) ∧
    (H ≠ "__proto__" → onlineUsers st2 !! H = Some C2) ∧
    ∀ C, C = C1 ∨ C = C2 →
      ∃ st3, handle (EvDisconnect C) st2 = Normal (st3, []) ∧
             onlineUsers st3 !! H = None ∧
             ∀ H', H' ≠ H → onlineUsers st3 !! H' = onlineUsers st2 !! H'.
Proof.
  intros Hne Hc1 Hc2.
  set (st1 := {| sockets := <[C1 := JStr H]> (sockets st);
                 onlineUsers := obj_set (onlineUsers st) H C1 |}).
  assert (connected st1 C2 = true) as Hc2'.
  { apply connected_spec. simpl. rewrite lookup_insert_ne by done.
    by apply connected_spec. }
  eexists st1, _. split; [by apply handle_join|].
  split; [by apply handle_join|]. split.
  - intros Hp. simpl. by apply obj_set_lookup.
  - intros C HC. eexists. split; [|split].
    + apply handle_disconnect. simpl. destruct HC as [-> | ->].
      * rewrite lookup_insert_ne by done. apply lookup_insert_eq.
      * apply lookup_insert_eq.
    + simpl. apply lookup_delete_eq.
    + intros H' HH'. simpl. by rewrite lookup_delete_ne.
Qed.

Lemma disconnect_deletes_without_tie_break_witness :
  let st := state_after [EvConnection "c1"; EvConnection "c2"] init in
  connected st "c1" = true ∧ connected st "c2" = true ∧
  ∃ st1 st2,
    handle (EvJoin "c1" (JStr "alice")) st = Normal (st1, []) ∧
    handle (EvJoin "c2" (JStr "alice")) st1 = Normal (st2, []) ∧
    ("alice" ≠ "__proto__" → onlineUsers st2 !! "alice" = Some "c2") ∧
    ∀ C, C = "c1" ∨ C = "c2" →
      ∃ st3, handle (EvDisconnect C) st2 = Normal (st3, []) ∧
             onlineUsers st3 !! "alice" = None ∧
             ∀ H', H' ≠ "alice" → onlineUsers st3 !! H' = onlineUsers st2 !! H'.
Proof.
  intros st. split; [reflexivity|]. split; [reflexivity|].
  apply (disconnect_deletes_without_tie_break st "alice" "c1" "c2");
    [discriminate | reflexivity | reflexivity].
Defined.

(** ** Routing: broadcast *)

(** C2, as stated, fails: "c2" is connected but never joined, so the
    registry holds "c1" only; the broadcast of "c1" is sent to "c2" as
    well. *)
Lemma broadcast_reaches_unregistered_socket :
  ∃ st,
    run [EvConnection "c1"; EvConnection "c2"; EvJoin "c1" (JStr "alice");
         EvGlobalMessage "c1" (JStr "hi")] init
      = Normal (st, [("c1", OutGlobalMessage (JStr "alice") (JStr "hi"));
                     ("c2", OutGlobalMessage (JStr "alice") (JStr "hi"))]) ∧
    map_to_list (onlineUsers st) = [("alice", "c1")].
Proof. eexists. split; vm_compute; reflexivity. Qed.

(** C2, amended: for every state and every [globalMessage] of a connected
    socket, the listener makes one [io.emit] of the event
    [{ user: socket.nickname, text: msg }], which is sent exactly once to
    every socket currently connected, the sender's own included and
    registered or not, and to nothing else; the state is unchanged. *)
Theorem broadcast_reaches_every_connected_socket
    (st : Server) (sid : string) (msg : JsValue) :
  connected st sid = true →
  ∃ out,
    handle (EvGlobalMessage sid msg) st = Normal (st, out) ∧
    NoDup (deliveries st out) ∧
    ∀ c e, (c, e) ∈ deliveries st out ↔
           connected st c = true ∧ e = OutGlobalMessage (nickname_of st sid) msg.
Proof.
  intros Hc. eexists. split; [by apply handle_globalMessage|].
  apply deliveries_io_emit.
Qed.

Lemma broadcast_reaches_every_connected_socket_witness :
  let st := state_after [EvConnection "c1"; EvConnection "c2";
                         EvJoin "c1" (JStr "alice")] init in
  connected st "c1" = true ∧
  ∃ out,
    handle (EvGlobalMessage "c1" (JStr "hi")) st = Normal (st, out) ∧
    NoDup (deliveries st out) ∧
    ∀ c e, (c, e) ∈ deliveries st out ↔
           connected st c = true ∧
           e = OutGlobalMessage (nickname_of st "c1") (JStr "hi").
Proof.
  split; [reflexivity|].
  apply (broadcast_reaches_every_connected_socket
           (state_after [EvConnection "c1"; EvConnection "c2";
                         EvJoin "c1" (JStr "alice")] init)
           "c1" (JStr "hi")).
  reflexivity.
Defined.

(** ** Routing: malformed payloads *)

(** C3 fails on the code: a [privateMessage] event emitted without a
    payload, or with [null], makes the listener throw a [TypeError] when its
    parameter pattern [{ to, text }] is bound; nothing catches it. *)
Theorem privateMessage_without_payload_throws :
  (∀ st sid, on_privateMessage st sid JUndefined = ThrowTypeError) ∧
  (∀ st sid, on_privateMessage st sid JNull = ThrowTypeError) ∧
  run [EvConnection "c1"; EvPrivateMessage "c1" JUndefined] init = ThrowTypeError.
Proof. repeat split. Qed.

(** ** Routing: the sender field *)

(** C4: the sender field of every event a socket's [globalMessage] or
    [privateMessage] produces is the nickname bound to that socket by its
    last [join], whatever the payload; and two [privateMessage] payloads
    that agree on [to] and [text], differing in any other content, are
    routed identically. *)
Theorem sender_is_the_nickname_bound_at_join
    (st st' : Server) (sid : string) (nickname : JsValue)
    (tr : list Event) (log : list (string * OutEvent)) :
  connected st sid = true →
  run (EvJoin sid nickname :: tr) st = Normal (st', log) →
  Forall (λ e, rebinds sid e = false) tr →
  (∀ msg, handle (EvGlobalMessage sid msg) st'
          = Normal (st', [IoEmit (OutGlobalMessage nickname msg)])) ∧
  (∀ e payload st'' out,
      e = EvGlobalMessage sid payload ∨ e = EvPrivateMessage sid payload →
      handle e st' = Normal (st'', out) →
      Forall (λ em, sender (emitted em) = nickname) out ∧
      ∀ c ev, (c, ev) ∈ deliveries st' out → sender ev = nickname) ∧
  (∀ p1 p2, destructure p1 = destructure p2 →
      handle (EvPrivateMessage sid p1) st' = handle (EvPrivateMessage sid p2) st').
Proof.
  intros Hc Hr Htr.
  apply run_cons in Hr as (st1 & out1 & log' & Hj & Hr).
  assert (sockets st' !! sid = Some nickname) as Hn.
  { eapply run_keeps_nickname; [done.. |].
    simpl in Hj. rewrite Hc in Hj. unfold on_join in Hj.
    destruct (ToPropertyKey nickname); [|done].
    injection Hj as <- _. simpl. apply lookup_insert_eq. }
  assert (connected st' sid = true) as Hc' by (apply connected_spec; eauto).
  assert (nickname_of st' sid = nickname) as Hnick
    by (unfold nickname_of; by rewrite Hn).
  split; [|split].
  - intros msg. rewrite handle_globalMessage by done. by rewrite Hnick.
  - intros e payload st'' out He Hh.
    assert (Forall (λ em, sender (emitted em) = nickname) out) as Hout.
    { destruct He as [-> | ->].
      - rewrite handle_globalMessage in Hh by done. injection Hh as _ <-.
        constructor; [by simpl | constructor].
      - rewrite handle_privateMessage in Hh by done.
        apply privateMessage_emits in Hh as [_ Hs]. by rewrite Hnick in Hs. }
    split; [done|]. intros c ev (em & Hem & ->)%deliveries_emitted.
    rewrite Forall_forall in Hout. by apply Hout.
  - intros p1 p2 Hp. rewrite !handle_privateMessage by done.
    unfold on_privateMessage. by rewrite Hp.
Qed.

Lemma sender_is_the_nickname_bound_at_join_witness :
  let st := state_after [EvConnection "c1"; EvConnection "c2"] init in
  let tr := [EvJoin "c2" (JStr "bob"); EvGlobalMessage "c1" (JStr "hello")] in
  let spoof := JObj [("from", JStr "bob"); ("to", JStr "bob"); ("text", JStr "x")] in
  connected st "c1" = true ∧
  handle (EvPrivateMessage "c1" spoof) (state_after (EvJoin "c1" (JStr "alice") :: tr) st)
    = handle (EvPrivateMessage "c1" (JObj [("to", JStr "bob"); ("text", JStr "x")]))
        (state_after (EvJoin "c1" (JStr "alice") :: tr) st).
Proof.
  intros st tr spoof. split; [reflexivity|].
  refine (proj2 (proj2 (sender_is_the_nickname_bound_at_join
            st (state_after (EvJoin "c1" (JStr "alice") :: tr) st) "c1" (JStr "alice") tr
            [("c1", OutGlobalMessage (JStr "alice") (JStr "hello"));
             ("c2", OutGlobalMessage (JStr "alice") (JStr "hello"))] _ _ _)) _ _ _).
  - reflexivity.
  - vm_compute. reflexivity.
  - repeat constructor.
  - reflexivity.
Defined.

(** ** Routing: direct messages *)

(** C5: in every reachable state where [target] is registered to the
    socket [C], a [privateMessage] of a connected socket with [to] being
    [target] makes one emit, of [{ from: socket.nickname, text }] to the room
    of [C]; no socket other than [C] is sent anything, and [C] is sent the
    event once when it is still connected.  The state is unchanged. *)
Theorem direct_goes_to_the_registered_socket_only
    (st : Server) (sid target C : string) (text payload : JsValue) :
  reachable st → connected st sid = true →
  onlineUsers st !! target = Some C →
  destructure payload = Normal (JStr target, text) →
  let ev := OutPrivateMessage (nickname_of st sid) text in
  handle (EvPrivateMessage sid payload) st = Normal (st, [IoToEmit (RSocketId C) ev]) ∧
  (∀ c e, (c, e) ∈ deliveries st [IoToEmit (RSocketId C) ev] → c = C ∧ e = ev) ∧
  (connected st C = true → deliveries st [IoToEmit (RSocketId C) ev] = [(C, ev)]).
Proof.
  intros Hst Hc Ht Hp ev. apply reachable_inv in Hst as [_ Hids _].
  split; [|split].
  - rewrite handle_privateMessage by done. unfold on_privateMessage.
    rewrite Hp. simpl. rewrite (obj_get_own _ _ _ Ht). simpl.
    rewrite (eqb_false_ne C "") by eauto. reflexivity.
  - intros c e (Hr & -> & _)%deliveries_io_to. by injection Hr as ->.
  - intros HC. unfold deliveries. simpl.
    rewrite bool_decide_eq_true_2 by (by apply connected_spec). reflexivity.
Qed.

Lemma direct_goes_to_the_registered_socket_only_witness :
  let st := state_after [EvConnection "c1"; EvConnection "c2"; EvConnection "c3";
                         EvJoin "c1" (JStr "alice"); EvJoin "c2" (JStr "bob")] init in
  let payload := JObj [("to", JStr "bob"); ("text", JStr "secret")] in
  let ev := OutPrivateMessage (JStr "alice") (JStr "secret") in
  onlineUsers st !! "bob" = Some "c2" ∧
  handle (EvPrivateMessage "c1" payload) st = Normal (st, [IoToEmit (RSocketId "c2") ev]) ∧
  deliveries st [IoToEmit (RSocketId "c2") ev] = [("c2", ev)].
Proof.
  intros st payload ev.
  assert (reachable st) as Hst.
  { apply (run_reachable
             [EvConnection "c1"; EvConnection "c2"; EvConnection "c3";
              EvJoin "c1" (JStr "alice"); EvJoin "c2" (JStr "bob")] init st []);
      [apply reachable_init | vm_compute; reflexivity]. }
  pose proof (direct_goes_to_the_registered_socket_only
                st "c1" "bob" "c2" (JStr "secret") payload
                Hst eq_refl eq_refl eq_refl) as (Hh & _ & Hd).
  split; [reflexivity|]. split; [exact Hh | exact (Hd eq_refl)].
Defined.

(** C6: in every state where [target] is not registered, a
    [privateMessage] of a connected socket with [to] being [target] completes
    normally, no socket is sent anything, and the state, the registry
    included, is unchanged. *)
Theorem direct_to_unregistered_handle_is_dropped
    (st : Server) (sid target : string) (text payload : JsValue) :
  connected st sid = true →
  onlineUsers st !! target = None →
  destructure payload = Normal (JStr target, text) →
  ∃ out, handle (EvPrivateMessage sid payload) st = Normal (st, out) ∧
         deliveries st out = [].
Proof.
  intros Hc Ht Hp. rewrite handle_privateMessage by done.
  unfold on_privateMessage. rewrite Hp. simpl.
  destruct (obj_get_absent _ _ Ht) as [-> | ->]; simpl; eauto.
Qed.

Lemma direct_to_unregistered_handle_is_dropped_witness :
  let st := state_after [EvConnection "c1"; EvJoin "c1" (JStr "alice")] init in
  onlineUsers st !! "ghost" = None ∧
  ∃ out, handle (EvPrivateMessage "c1" (JObj [("to", JStr "ghost"); ("text", JStr "x")])) st
           = Normal (st, out) ∧
         deliveries st out = [].
Proof.
  intros st. split; [reflexivity|].
  apply (direct_to_unregistered_handle_is_dropped
           st "c1" "ghost" (JStr "x")); reflexivity.
Defined.

(** ** Presence registry: one entry per handle *)

(** C7: in every reachable state no handle is registered to two sockets; a
    [join] under a handle [H] never fails, leads to a reachable state again,
    and, where [H] already had an entry, puts the joining socket in its place
    without adding an entry. *)
Theorem one_entry_per_handle (st : Server) :
  reachable st →
  (∀ H c1 c2, (H, c1) ∈ map_to_list (onlineUsers st) →
              (H, c2) ∈ map_to_list (onlineUsers st) → c1 = c2) ∧
  (∀ H sid, connected st sid = true →
     ∃ st', handle (EvJoin sid (JStr H)) st = Normal (st', []) ∧
            reachable st' ∧
            ∀ c0, onlineUsers st !! H = Some c0 →
                  onlineUsers st' !! H = Some sid ∧
                  size (onlineUsers st') = size (onlineUsers st)).
Proof.
  intros Hst. split.
  - intros H c1 c2 H1%elem_of_map_to_list H2%elem_of_map_to_list. congruence.
  - intros H sid Hc. eexists. split; [by apply handle_join|]. split.
    + eapply reachable_step; [done | by apply handle_join].
    + intros c0 Hc0. simpl.
      assert (H ≠ "__proto__") as Hp.
      { intros ->. apply reachable_inv in Hst as [Hno _ _]. congruence. }
      split; [by apply obj_set_lookup|].
      unfold obj_set. rewrite (eqb_false_ne _ _ Hp).
      rewrite <- !size_dom, dom_insert_L. f_equal.
      apply subseteq_union_1_L, singleton_subseteq_l, elem_of_dom. eauto.
Qed.

Lemma one_entry_per_handle_witness :
  let st := state_after [EvConnection "c1"; EvConnection "c2";
                         EvJoin "c1" (JStr "alice")] init in
  onlineUsers st !! "alice" = Some "c1" ∧
  ∃ st', handle (EvJoin "c2" (JStr "alice")) st = Normal (st', []) ∧
         onlineUsers st' !! "alice" = Some "c2" ∧
         size (onlineUsers st') = size (onlineUsers st).
Proof.
  intros st. split; [reflexivity|].
  assert (reachable st) as Hst.
  { apply (run_reachable
             [EvConnection "c1"; EvConnection "c2"; EvJoin "c1" (JStr "alice")]
             init st []);
      [apply reachable_init | vm_compute; reflexivity]. }
  destruct (one_entry_per_handle st Hst) as [_ Hj].
  destruct (Hj "alice" "c2" eq_refl) as (st' & Hh & _ & Hrep).
  exists st'. split; [exact Hh|]. exact (Hrep "c1" eq_refl).
Defined.

(** ** Presence registry: entries left behind *)

(** C8, as stated, fails: a [join] under "__proto__" registers nothing (the
    assignment of a string to that key creates no property), so after the
    second [join] the registry does not map the first handle to the
    socket. *)
Lemma join_under_proto_registers_nothing :
  ∃ st log,
    run [EvConnection "c1"; EvJoin "c1" (JStr "__proto__");
         EvJoin "c1" (JStr "bob")] init = Normal (st, log) ∧
    onlineUsers st !! "bob" = Some "c1" ∧
    onlineUsers st !! "__proto__" = None.
Proof. do 2 eexists. repeat split; vm_compute; reflexivity. Qed.

(** C8, amended: for every connected socket [C] and distinct handles [H1],
    [H2], neither of them "__proto__", after [C] joins under [H1] and then
    under [H2] the registry maps both to [C]; the disconnect of [C] then
    deletes the entry of [H2] only, and [H1] stays registered to the socket
    that is gone. *)
Theorem rejoin_leaves_old_handle_registered (st : Server) (C H1 H2 : string) :
  connected st C = true → H1 ≠ H2 → H1 ≠ "__proto__" → H2 ≠ "__proto__" →
  ∃ st1 st2 st3,
    handle (EvJoin C (JStr H1)) st = Normal (st1, []) ∧
    handle (EvJoin C (JStr H2)) st1 = Normal (st2, []) ∧
    onlineUsers st2 !! H1 = Some C ∧
    onlineUsers st2 !! H2 = Some C ∧
    handle (EvDisconnect C) st2 = Normal (st3, []) ∧
    onlineUsers st3 !! H2 = None ∧
    (∀ H, H ≠ H2 → onlineUsers st3 !! H = onlineUsers st2 !! H) ∧
    onlineUsers st3 !! H1 = Some C ∧
    connected st3 C = false.
Proof.
  intros Hc Hne Hp1 Hp2.
  set (st1 := {| sockets := <[C := JStr H1]> (sockets st);
                 onlineUsers := obj_set (onlineUsers st) H1 C |}).
  assert (connected st1 C = true) as Hc1.
  { apply connected_spec. simpl. rewrite lookup_insert_eq. eauto. }
  set (st2 := {| sockets := <[C := JStr H2]> (sockets st1);
                 onlineUsers := obj_set (onlineUsers st1) H2 C |}).
  assert (onlineUsers st2 !! H1 = Some C) as HH1.
  { simpl. rewrite obj_set_lookup_ne by done. by apply obj_set_lookup. }
  exists st1, st2. eexists. split; [by apply handle_join|].
  split; [by apply handle_join|]. split; [done|].
  split; [by apply obj_set_lookup|]. split.
  { apply handle_disconnect. simpl. apply lookup_insert_eq. }
  simpl. split; [apply lookup_delete_eq|]. split.
  { intros H HH. by rewrite lookup_delete_ne. }
  split.
  - rewrite lookup_delete_ne by done. exact HH1.
  - apply connected_false. simpl. apply lookup_delete_eq.
Qed.

Lemma rejoin_leaves_old_handle_registered_witness :
  let st := state_after [EvConnection "c1"] init in
  connected st "c1" = true ∧
  ∃ st1 st2 st3,
    handle (EvJoin "c1" (JStr "alice")) st = Normal (st1, []) ∧
    handle (EvJoin "c1" (JStr "bob")) st1 = Normal (st2, []) ∧
    onlineUsers st2 !! "alice" = Some "c1" ∧
    onlineUsers st2 !! "bob" = Some "c1" ∧
    handle (EvDisconnect "c1") st2 = Normal (st3, []) ∧
    onlineUsers st3 !! "bob" = None ∧
    (∀ H, H ≠ "bob" → onlineUsers st3 !! H = onlineUsers st2 !! H) ∧
    onlineUsers st3 !! "alice" = Some "c1" ∧
    connected st3 "c1" = false.
Proof.
  intros st. split; [reflexivity|].
  apply (rejoin_leaves_old_handle_registered st "c1" "alice" "bob");
    [reflexivity | discriminate..].
Defined.

(** ** A socket that never joined *)

(** C9: a socket that connected and has sent no [join] since can
    broadcast: its [globalMessage] is sent exactly once to every connected
    socket and to nothing else, with [undefined] in the sender field. *)
Theorem broadcast_before_join_has_undefined_sender
    (st st' : Server) (sid : string) (tr : list Event)
    (log : list (string * OutEvent)) (msg : JsValue) :
  sid ≠ "" → connected st sid = false →
  run (EvConnection sid :: tr) st = Normal (st', log) →
  Forall (λ e, rebinds sid e = false) tr →
  ∃ out,
    handle (EvGlobalMessage sid msg) st' = Normal (st', out) ∧
    NoDup (deliveries st' out) ∧
    ∀ c e, (c, e) ∈ deliveries st' out ↔
           connected st' c = true ∧ e = OutGlobalMessage JUndefined msg.
Proof.
  intros Hsid Hc Hr Htr.
  apply run_cons in Hr as (st1 & out1 & log' & Hconn & Hr).
  assert (sockets st' !! sid = Some JUndefined) as Hn.
  { eapply run_keeps_nickname; [done.. |].
    simpl in Hconn. rewrite Hc, (eqb_false_ne _ _ Hsid) in Hconn.
    injection Hconn as <- _. simpl. apply lookup_insert_eq. }
  assert (connected st' sid = true) as Hc' by (apply connected_spec; eauto).
  eexists. split; [by apply handle_globalMessage|].
  unfold nickname_of. rewrite Hn. simpl. apply deliveries_io_emit.
Qed.

Lemma broadcast_before_join_has_undefined_sender_witness :
  let st := state_after [EvConnection "c1"; EvJoin "c1" (JStr "alice")] init in
  let tr := [EvPrivateMessage "c2" (JObj [("to", JStr "alice")])] in
  connected st "c2" = false ∧
  ∃ out,
    handle (EvGlobalMessage "c2" (JStr "hi")) (state_after (EvConnection "c2" :: tr) st)
      = Normal (state_after (EvConnection "c2" :: tr) st, out) ∧
    NoDup (deliveries (state_after (EvConnection "c2" :: tr) st) out) ∧
    ∀ c e, (c, e) ∈ deliveries (state_after (EvConnection "c2" :: tr) st) out ↔
           connected (state_after (EvConnection "c2" :: tr) st) c = true ∧
           e = OutGlobalMessage JUndefined (JStr "hi").
Proof.
  intros st tr. split; [reflexivity|].
  apply (broadcast_before_join_has_undefined_sender
           st (state_after (EvConnection "c2" :: tr) st) "c2" tr
           [("c1", OutPrivateMessage JUndefined JUndefined)] (JStr "hi")).
  - discriminate.
  - reflexivity.
  - vm_compute. reflexivity.
  - repeat constructor.
Defined.

(** C10: when a socket that connected and has sent no [join] since
    disconnects, the listener deletes the entry under the key "undefined",
    the string its absent nickname is coerced to, if there is one, and every
    other entry is as before. *)
Theorem disconnect_before_join_deletes_undefined_key
    (st st' : Server) (sid : string) (tr : list Event)
    (log : list (string * OutEvent)) :
  sid ≠ "" → connected st sid = false →
  run (EvConnection sid :: tr) st = Normal (st', log) →
  Forall (λ e, rebinds sid e = false) tr →
  ∃ st'',
    handle (EvDisconnect sid) st' = Normal (st'', []) ∧
    onlineUsers st'' !! "undefined" = None ∧
    ∀ H, H ≠ "undefined" → onlineUsers st'' !! H = onlineUsers st' !! H.
Proof.
  intros Hsid Hc Hr Htr.
  apply run_cons in Hr as (st1 & out1 & log' & Hconn & Hr).
  assert (sockets st' !! sid = Some JUndefined) as Hn.
  { eapply run_keeps_nickname; [done.. |].
    simpl in Hconn. rewrite Hc, (eqb_false_ne _ _ Hsid) in Hconn.
    injection Hconn as <- _. simpl. apply lookup_insert_eq. }
  eexists. split; [by apply handle_disconnect_undefined|].
  simpl. split; [apply lookup_delete_eq|].
  intros H HH. by rewrite lookup_delete_ne.
Qed.

Lemma disconnect_before_join_deletes_undefined_key_witness :
  let st := state_after [EvConnection "c1"; EvJoin "c1" (JStr "undefined");
                         EvConnection "c2"; EvJoin "c2" (JStr "bob")] init in
  let st' := state_after [EvConnection "c3"] st in
  onlineUsers st' !! "undefined" = Some "c1" ∧
  ∃ st'',
    handle (EvDisconnect "c3") st' = Normal (st'', []) ∧
    onlineUsers st'' !! "undefined" = None ∧
    ∀ H, H ≠ "undefined" → onlineUsers st'' !! H = onlineUsers st' !! H.
Proof.
  intros st st'. split; [reflexivity|].
  apply (disconnect_before_join_deletes_undefined_key st st' "c3" [] []).
  - discriminate.
  - reflexivity.
  - vm_compute. reflexivity.
  - constructor.
Defined.

(** ** More on the listeners *)

Lemma handle_join_key st sid nickname key :
  connected st sid = true → ToPropertyKey nickname = Normal key →
  handle (EvJoin sid nickname) st =
    Normal ({| sockets := <[sid := nickname]> (sockets st);
               onlineUsers := obj_set (onlineUsers st) key sid |}, []).
Proof. intros Hc Hk. simpl. rewrite Hc. unfold on_join. by rewrite Hk. Qed.

Lemma handle_disconnect_key st sid nickname key :
  sockets st !! sid = Some nickname → ToPropertyKey nickname = Normal key →
  handle (EvDisconnect sid) st =
    Normal ({| sockets := delete sid (sockets st);
               onlineUsers := delete key (onlineUsers st) |}, []).
Proof.
  intros Hs Hk. simpl. unfold connected. rewrite bool_decide_eq_true_2 by eauto.
  unfold on_disconnect, nickname_of. rewrite Hs. simpl. by rewrite Hk.
Qed.

Lemma connected_not_empty st sid :
  registry_inv st → connected st sid = true → sid ≠ "".
Proof.
  intros [_ _ Hs] Hc ->. apply connected_spec in Hc. rewrite Hs in Hc.
  by destruct Hc.
Qed.

Lemma deliveries_connected st out c e :
  (c, e) ∈ deliveries st out → connected st c = true.
Proof.
  unfold deliveries. rewrite list_elem_of_bind. intros (em & Hr & _).
  destruct em as [ev|room ev]; simpl in Hr.
  - apply list_elem_of_fmap in Hr as (x & [= -> _] & Hx).
    by apply connected_spec, elem_of_dom, elem_of_elements.
  - destruct room as [|r|n]; try (by apply elem_of_nil in Hr).
    case_bool_decide as Hc; [|by apply elem_of_nil in Hr].
    apply list_elem_of_singleton in Hr as [= -> _]. by apply connected_spec.
Qed.

Lemma handle_message st st' e out :
  is_message e = true → handle e st = Normal (st', out) →
  st' = st ∧ (List.length out ≤ 1)%nat.
Proof.
  intros Hm He. destruct e as [c|c n|c msg|c payload|c]; try done; simpl in He.
  - destruct (connected st c); injection He as <- <-; simpl; auto.
  - destruct (connected st c); [|injection He as <- <-; simpl; auto].
    unfold on_privateMessage in He.
    destruct (destructure payload) as [[to text]|]; [|done]. simpl in He.
    destruct (ToPropertyKey to); [|done]. simpl in He.
    destruct (ToBoolean _); injection He as <- <-; simpl; auto.
Qed.

(** X1: The two message listeners read the state and never write it, and make
    at most one emit. *)
Theorem messages_leave_the_state_unchanged
    (st st' : Server) (e : Event) (out : list Emit) :
  is_message e = true → handle e st = Normal (st', out) →
  st' = st ∧ (List.length out ≤ 1)%nat.
Proof. apply handle_message. Qed.

Lemma messages_leave_the_state_unchanged_witness :
  let st := state_after [EvConnection "c1"; EvJoin "c1" (JStr "alice")] init in
  let payload := JObj [("to", JStr "alice"); ("text", JStr "x")] in
  let out := [IoToEmit (RSocketId "c1") (OutPrivateMessage (JStr "alice") (JStr "x"))] in
  handle (EvPrivateMessage "c1" payload) st = Normal (st, out) ∧
  st = st ∧ (List.length out ≤ 1)%nat.
Proof.
  intros st payload out. split; [reflexivity|].
  apply (messages_leave_the_state_unchanged st st (EvPrivateMessage "c1" payload) out);
    reflexivity.
Defined.

(** X2: A second [join] of the same socket with the same nickname changes
    nothing. *)
Theorem join_twice_is_join_once
    (st st1 : Server) (sid : string) (nickname : JsValue) (out : list Emit) :
  handle (EvJoin sid nickname) st = Normal (st1, out) →
  handle (EvJoin sid nickname) st1 = Normal (st1, []).
Proof.
  intros He. destruct (connected st sid) eqn:Hc.
  - destruct (ToPropertyKey nickname) as [key|] eqn:Hk.
    + rewrite (handle_join_key _ _ _ _ Hc Hk) in He. injection He as <- _.
      rewrite (handle_join_key _ _ _ key); [| |done].
      * simpl. rewrite insert_insert_eq. do 3 f_equal.
        unfold obj_set. destruct (String.eqb key "__proto__"); [done|].
        by rewrite insert_insert_eq.
      * apply connected_spec. simpl. rewrite lookup_insert_eq. eauto.
    + simpl in He. rewrite Hc in He. unfold on_join in He.
      rewrite Hk in He. done.
  - simpl in He. rewrite Hc in He. injection He as <- _. simpl. by rewrite Hc.
Qed.

Lemma join_twice_is_join_once_witness :
  let st := state_after [EvConnection "c1"] init in
  let st1 := state_after [EvJoin "c1" (JStr "alice")] st in
  handle (EvJoin "c1" (JStr "alice")) st1 = Normal (st1, []).
Proof.
  intros st st1.
  apply (join_twice_is_join_once st st1 "c1" (JStr "alice") []).
  vm_compute. reflexivity.
Defined.

(** X3: A socket that joins under a key no one holds and then disconnects
    leaves the registry as it found it. *)
Theorem join_then_disconnect_restores_the_registry
    (st : Server) (sid key : string) (nickname : JsValue) :
  connected st sid = true →
  ToPropertyKey nickname = Normal key →
  onlineUsers st !! key = None →
  ∃ st1 st2,
    handle (EvJoin sid nickname) st = Normal (st1, []) ∧
    handle (EvDisconnect sid) st1 = Normal (st2, []) ∧
    onlineUsers st2 = onlineUsers st ∧
    sockets st2 = delete sid (sockets st).
Proof.
  intros Hc Hk Hnone. do 2 eexists.
  split; [by apply handle_join_key|]. split.
  { apply (handle_disconnect_key _ _ nickname key); [|done].
    simpl. apply lookup_insert_eq. }
  simpl. split.
  - unfold obj_set. destruct (String.eqb key "__proto__").
    + by apply delete_id.
    + rewrite delete_insert_eq. by apply delete_id.
  - by rewrite delete_insert_eq.
Qed.

Lemma join_then_disconnect_restores_the_registry_witness :
  let st := state_after [EvConnection "c1"; EvJoin "c1" (JStr "alice");
                         EvConnection "c2"] init in
  ∃ st1 st2,
    handle (EvJoin "c2" JNull) st = Normal (st1, []) ∧
    handle (EvDisconnect "c2") st1 = Normal (st2, []) ∧
    onlineUsers st2 = onlineUsers st ∧
    sockets st2 = delete "c2" (sockets st).
Proof.
  intros st.
  apply (join_then_disconnect_restores_the_registry st "c2" "null" JNull);
    reflexivity.
Defined.

(** *** Which events throw *)

Lemma init_nicknames_have_keys : nicknames_have_keys init.
Proof. intros sid v. simpl. by rewrite lookup_empty. Qed.

Lemma handle_nicknames_have_keys e st st' out :
  nicknames_have_keys st → handle e st = Normal (st', out) →
  nicknames_have_keys st'.
Proof.
  intros Hst He. destruct e as [c|c n|c msg|c payload|c].
  - simpl in He.
    destruct (String.eqb c "" || connected st c); injection He as <- <-; [done|].
    intros sid v. simpl. destruct (decide (c = sid)) as [->|Hne].
    + rewrite lookup_insert_eq. intros [= <-]. by exists "undefined".
    + rewrite lookup_insert_ne by done. apply Hst.
  - simpl in He. destruct (connected st c); [|by injection He as <- <-].
    unfold on_join in He. destruct (ToPropertyKey n) as [key|] eqn:Hk; [|done].
    injection He as <- <-. intros sid v. simpl.
    destruct (decide (c = sid)) as [->|Hne].
    + rewrite lookup_insert_eq. intros [= <-]. by exists key.
    + rewrite lookup_insert_ne by done. apply Hst.
  - by apply handle_message in He as [-> _].
  - by apply handle_message in He as [-> _].
  - simpl in He. destruct (connected st c); [|by injection He as <- <-].
    unfold on_disconnect in He. destruct (ToPropertyKey _); [|done].
    injection He as <- <-. intros sid v. simpl.
    rewrite lookup_delete_Some. intros [_ Hv]. by eapply Hst.
Qed.

Lemma reachable_nicknames_have_keys st : reachable st → nicknames_have_keys st.
Proof.
  induction 1 as [|st e st' out _ IH He]; [apply init_nicknames_have_keys|].
  by eapply handle_nicknames_have_keys.
Qed.

Lemma destructure_throws payload :
  destructure payload = ThrowTypeError ↔ payload = JUndefined ∨ payload = JNull.
Proof.
  split.
  - destruct payload; simpl; try done; auto.
  - by intros [-> | ->].
Qed.

(** X4: In a reachable state a connection, a [globalMessage] and a
    [disconnect] never throw.  A [join] throws exactly when its socket is
    connected and the nickname has no property key; a [privateMessage]
    exactly when its socket is connected and the payload is [undefined] or
    [null], or what it carries as [to] has no property key. *)
Theorem the_events_that_throw (st : Server) :
  reachable st →
  (∀ sid, ∃ st', handle (EvConnection sid) st = Normal (st', [])) ∧
  (∀ sid msg, ∃ out, handle (EvGlobalMessage sid msg) st = Normal (st, out)) ∧
  (∀ sid, ∃ st', handle (EvDisconnect sid) st = Normal (st', [])) ∧
  (∀ sid nickname,
     handle (EvJoin sid nickname) st = ThrowTypeError ↔
     connected st sid = true ∧ ToPropertyKey nickname = ThrowTypeError) ∧
  (∀ sid payload,
     handle (EvPrivateMessage sid payload) st = ThrowTypeError ↔
     connected st sid = true ∧
     (payload = JUndefined ∨ payload = JNull ∨
      ∃ to text, destructure payload = Normal (to, text) ∧
                 ToPropertyKey to = ThrowTypeError)).
Proof.
  intros Hst. apply reachable_nicknames_have_keys in Hst.
  split; [|split; [|split; [|split]]].
  - intros sid. simpl. destruct (String.eqb sid "" || connected st sid); eauto.
  - intros sid msg. simpl. destruct (connected st sid); eauto.
  - intros sid. destruct (sockets st !! sid) as [v|] eqn:Hv.
    + destruct (Hst _ _ Hv) as [key Hk].
      rewrite (handle_disconnect_key _ _ _ _ Hv Hk). eauto.
    + simpl. apply connected_false in Hv. rewrite Hv. eauto.
  - intros sid nickname. simpl. destruct (connected st sid).
    + unfold on_join. destruct (ToPropertyKey nickname); simpl; split; try done.
      by intros [_ ?].
    + split; [done | by intros [? _]].
  - intros sid payload. simpl. destruct (connected st sid).
    + unfold on_privateMessage.
      destruct (destructure payload) as [[to text]|] eqn:Hd; simpl.
      * destruct (ToPropertyKey to) as [key|] eqn:Hk; simpl.
        -- split.
           ++ by destruct (ToBoolean _).
           ++ intros [_ [-> | [-> | (to' & text' & [= <- <-] & Hk')]]];
                [done | done | congruence].
        -- split; [|done]. intros _. split; [done|]. right. right. eauto.
      * split; [|done]. intros _. split; [done|].
        apply destructure_throws in Hd as [-> | ->]; auto.
    + split; [done | by intros [? _]].
Qed.

Lemma the_events_that_throw_witness :
  let st := state_after [EvConnection "c1"] init in
  handle (EvJoin "c1" (JArr [JStr "a"; JObj [("toString", JNull)]])) st
    = ThrowTypeError.
Proof.
  intros st.
  assert (reachable st) as Hst.
  { apply (run_reachable [EvConnection "c1"] init st []);
      [apply reachable_init | vm_compute; reflexivity]. }
  destruct (the_events_that_throw st Hst) as (_ & _ & _ & Hj & _).
  apply Hj. split; reflexivity.
Defined.

(** *** Who holds a key *)

(** X5: Direct messages are routed by property key, and the socket that
    joined last under a key holds it, whoever held it before: once [C] has
    joined with a nickname whose key is [key] (not "__proto__"), a
    [privateMessage] whose [to] has the same key is sent to [C] and to no one
    else.  The nickname and [to] need not be strings, nor equal. *)
Theorem last_join_under_a_key_receives_its_direct_messages
    (st : Server) (C from key : string) (nickname to text payload : JsValue) :
  reachable st →
  connected st C = true → connected st from = true →
  ToPropertyKey nickname = Normal key → key ≠ "__proto__" →
  destructure payload = Normal (to, text) →
  ToPropertyKey to = Normal key →
  ∃ st1 out,
    handle (EvJoin C nickname) st = Normal (st1, []) ∧
    handle (EvPrivateMessage from payload) st1 = Normal (st1, out) ∧
    deliveries st1 out = [(C, OutPrivateMessage (nickname_of st1 from) text)].
Proof.
  intros Hst HC Hfrom Hk Hproto Hd Hto.
  assert (C ≠ "") as HCne by (eapply connected_not_empty; [by apply reachable_inv|done]).
  eexists _, _. split; [by apply handle_join_key|].
  match goal with |- handle _ ?s = _ ∧ _ => set (st1 := s) end.
  assert (connected st1 from = true) as Hfrom1.
  { apply connected_spec. simpl. destruct (decide (C = from)) as [->|Hne].
    - rewrite lookup_insert_eq. eauto.
    - rewrite lookup_insert_ne by done. by apply connected_spec. }
  assert (handle (EvPrivateMessage from payload) st1
          = Normal (st1, [IoToEmit (RSocketId C)
                            (OutPrivateMessage (nickname_of st1 from) text)])) as Hh.
  { rewrite handle_privateMessage by done. unfold on_privateMessage.
    rewrite Hd. simpl. rewrite Hto. simpl.
    rewrite (obj_get_own _ _ C) by (by apply obj_set_lookup). simpl.
    by rewrite (eqb_false_ne C ""). }
  split; [exact Hh|].
  unfold deliveries. simpl.
  rewrite bool_decide_eq_true_2; [done|]. rewrite lookup_insert_eq. eauto.
Qed.

Lemma last_join_under_a_key_receives_its_direct_messages_witness :
  let st := state_after [EvConnection "c1"; EvConnection "c2"; EvConnection "c3";
                         EvJoin "c1" (JStr "undefined")] init in
  ∃ st1 out,
    handle (EvJoin "c2" JUndefined) st = Normal (st1, []) ∧
    handle (EvPrivateMessage "c3" (JStr "hello")) st1 = Normal (st1, out) ∧
    deliveries st1 out = [("c2", OutPrivateMessage (nickname_of st1 "c3") JUndefined)].
Proof.
  intros st.
  assert (reachable st) as Hst.
  { apply (run_reachable
             [EvConnection "c1"; EvConnection "c2"; EvConnection "c3";
              EvJoin "c1" (JStr "undefined")] init st []);
      [apply reachable_init | vm_compute; reflexivity]. }
  apply (last_join_under_a_key_receives_its_direct_messages
           st "c2" "c3" "undefined" JUndefined JUndefined JUndefined (JStr "hello") Hst);
    (reflexivity || discriminate).
Defined.

(** *** After the disconnect *)

Lemma handle_stays_disconnected e st st' out sid :
  is_connection_of sid e = false → handle e st = Normal (st', out) →
  connected st sid = false → connected st' sid = false.
Proof.
  rewrite !connected_false. intros Hce He Hs.
  destruct e as [c|c n|c msg|c payload|c].
  - simpl in He, Hce. apply String.eqb_neq in Hce.
    destruct (String.eqb c "" || connected st c); injection He as <- <-; [done|].
    simpl. by rewrite lookup_insert_ne.
  - simpl in He. destruct (connected st c) eqn:Hc; [|by injection He as <- <-].
    unfold on_join in He. destruct (ToPropertyKey n); [|done].
    injection He as <- <-. simpl. rewrite lookup_insert_ne; [done|].
    intros ->. apply connected_spec in Hc. rewrite Hs in Hc. by destruct Hc.
  - by apply handle_message in He as [-> _].
  - by apply handle_message in He as [-> _].
  - simpl in He. destruct (connected st c); [|by injection He as <- <-].
    unfold on_disconnect in He. destruct (ToPropertyKey _); [|done].
    injection He as <- <-. simpl. rewrite lookup_delete_None. by right.
Qed.

Lemma run_sends_nothing_to_disconnected tr st st' log sid :
  Forall (λ e, is_connection_of sid e = false) tr →
  run tr st = Normal (st', log) →
  connected st sid = false →
  ∀ ev, (sid, ev) ∉ log.
Proof.
  revert st log. induction tr as [|e tr IH]; intros st log Htr Hr Hs ev.
  - injection Hr as _ <-. apply not_elem_of_nil.
  - apply Forall_cons in Htr as [He Htr]. simpl in Hr.
    destruct (handle e st) as [[st1 out]|] eqn:Hh; [|done]. simpl in Hr.
    destruct (run tr st1) as [[st2 log']|] eqn:Hrun; [|done]. simpl in Hr.
    injection Hr as <- <-. rewrite elem_of_app. intros [Hd | Hl].
    + apply deliveries_connected in Hd. congruence.
    + eapply (IH st1 log' Htr Hrun); [|exact Hl].
      by eapply handle_stays_disconnected.
Qed.

(** X6: From its disconnect on, and until a connection under the same id, a
    socket is sent nothing, whatever the other sockets do and whatever
    entries of the registry still name it. *)
Theorem nothing_is_sent_after_the_disconnect
    (st st' : Server) (sid : string) (tr : list Event)
    (log : list (string * OutEvent)) :
  Forall (λ e, is_connection_of sid e = false) tr →
  run (EvDisconnect sid :: tr) st = Normal (st', log) →
  ∀ ev, (sid, ev) ∉ log.
Proof.
  intros Htr Hr ev. simpl in Hr.
  destruct (connected st sid) eqn:Hc.
  - destruct (on_disconnect st sid) as [[st1 out]|] eqn:Hd; [|done].
    unfold on_disconnect in Hd. destruct (ToPropertyKey _); [|done].
    injection Hd as <- <-. simpl in Hr.
    match type of Hr with context [run tr ?s] => set (st1 := s) in * end.
    destruct (run tr st1) as [[st2 log']|] eqn:Hrun; [|done]. simpl in Hr.
    injection Hr as _ <-.
    eapply run_sends_nothing_to_disconnected; [done | done |].
    apply connected_false. simpl. apply lookup_delete_eq.
  - simpl in Hr. destruct (run tr st) as [[st2 log']|] eqn:Hrun; [|done].
    simpl in Hr. injection Hr as _ <-.
    by eapply run_sends_nothing_to_disconnected.
Qed.

Lemma nothing_is_sent_after_the_disconnect_witness :
  let st := state_after [EvConnection "c1"; EvConnection "c2";
                         EvJoin "c1" (JStr "alice"); EvJoin "c1" (JStr "bob")] init in
  let tr := [EvPrivateMessage "c2" (JObj [("to", JStr "alice"); ("text", JStr "x")]);
             EvGlobalMessage "c2" (JStr "hi")] in
  onlineUsers (state_after (EvDisconnect "c1" :: tr) st) !! "alice" = Some "c1" ∧
  ∀ ev, ("c1", ev) ∉ [("c2", OutGlobalMessage JUndefined (JStr "hi"))].
Proof.
  intros st tr. split; [reflexivity|].
  apply (nothing_is_sent_after_the_disconnect
           st (state_after (EvDisconnect "c1" :: tr) st) "c1" tr).
  - repeat constructor.
  - vm_compute. reflexivity.
Defined.

(** *** Handles a socket leaves behind *)

Lemma run_app tr1 tr2 st st1 st2 log1 log2 :
  run tr1 st = Normal (st1, log1) → run tr2 st1 = Normal (st2, log2) →
  run (tr1 ++ tr2) st = Normal (st2, (log1 ++ log2)%list).
Proof.
  revert st log1. induction tr1 as [|e tr1 IH]; intros st log1 H1 H2.
  - injection H1 as <- <-. done.
  - simpl in *. destruct (handle e st) as [[sta out]|]; [|done]. simpl in *.
    destruct (run tr1 sta) as [[stb logb]|] eqn:Hr; [|done]. simpl in H1.
    injection H1 as <- <-. rewrite (IH _ _ Hr H2). simpl.
    by rewrite app_assoc.
Qed.

Lemma obj_set_keeps o key sid k :
  o !! k = Some sid → obj_set o key sid !! k = Some sid.
Proof.
  intros Hk. unfold obj_set. destruct (String.eqb key "__proto__"); [done|].
  destruct (decide (key = k)) as [->|Hne].
  - apply lookup_insert_eq.
  - by rewrite lookup_insert_ne.
Qed.

Lemma run_joins C hs st :
  connected st C = true →
  ∃ st1, run (joins C hs) st = Normal (st1, []) ∧
         connected st1 C = true ∧
         ∀ k, onlineUsers st !! k = Some C ∨ (k ∈ hs ∧ k ≠ "__proto__") →
              onlineUsers st1 !! k = Some C.
Proof.
  revert st. induction hs as [|h hs IH]; intros st Hc.
  - exists st. split; [done|]. split; [done|].
    intros k [Hk | [Hk _]]; [done | by apply elem_of_nil in Hk].
  - set (sta := {| sockets := <[C := JStr h]> (sockets st);
                   onlineUsers := obj_set (onlineUsers st) h C |}).
    assert (connected sta C = true) as Hca.
    { apply connected_spec. simpl. rewrite lookup_insert_eq. eauto. }
    destruct (IH sta Hca) as (st1 & Hr & Hc1 & Hk1).
    exists st1. split; [|split; [done|]].
    + change (joins C (h :: hs)) with (EvJoin C (JStr h) :: joins C hs).
      cbn [run]. rewrite (handle_join _ _ _ Hc). fold sta. simpl.
      by rewrite Hr.
    + intros k Hk. apply Hk1. simpl.
      destruct Hk as [Hk | [Hk Hp]].
      * left. by apply obj_set_keeps.
      * apply elem_of_cons in Hk as [-> | Hk]; [|by right].
        left. by apply obj_set_lookup.
Qed.

(** X7: A socket that joins under one handle after the other holds them all:
    when it disconnects, only the entry of the last handle goes, and every
    earlier one stays in the registry, naming the socket that is gone. *)
Theorem earlier_handles_outlive_the_socket
    (st : Server) (C last : string) (hs : list string) :
  connected st C = true →
  last ∉ hs → "__proto__" ∉ hs →
  ∃ st',
    run (joins C hs ++ [EvJoin C (JStr last); EvDisconnect C]) st = Normal (st', []) ∧
    connected st' C = false ∧
    onlineUsers st' !! last = None ∧
    ∀ h, h ∈ hs → onlineUsers st' !! h = Some C.
Proof.
  intros Hc Hlast Hproto.
  destruct (run_joins C hs st Hc) as (st1 & Hr & Hc1 & Hk1).
  set (st2 := {| sockets := <[C := JStr last]> (sockets st1);
                 onlineUsers := obj_set (onlineUsers st1) last C |}).
  set (st3 := {| sockets := delete C (sockets st2);
                 onlineUsers := delete last (onlineUsers st2) |}).
  assert (run [EvJoin C (JStr last); EvDisconnect C] st1 = Normal (st3, [])) as Hr2.
  { cbn [run]. rewrite (handle_join _ _ _ Hc1). fold st2. cbn [mbind Completion_bind].
    rewrite (handle_disconnect st2 C last) by (simpl; apply lookup_insert_eq).
    fold st3. done. }
  exists st3. split; [|split; [|split]].
  - apply (run_app _ _ _ _ _ [] [] Hr Hr2).
  - apply connected_false. simpl. apply lookup_delete_eq.
  - simpl. apply lookup_delete_eq.
  - intros h Hh. simpl.
    rewrite lookup_delete_ne by (intros ->; done).
    apply obj_set_keeps, Hk1. right. split; [done|]. by intros ->.
Qed.

Lemma earlier_handles_outlive_the_socket_witness :
  let st := state_after [EvConnection "c1"] init in
  ∃ st',
    run (joins "c1" ["a"; "b"; "c"] ++ [EvJoin "c1" (JStr "d"); EvDisconnect "c1"]) st
      = Normal (st', []) ∧
    connected st' "c1" = false ∧
    onlineUsers st' !! "d" = None ∧
    ∀ h, h ∈ ["a"; "b"; "c"] → onlineUsers st' !! h = Some "c1".
Proof.
  intros st.
  apply (earlier_handles_outlive_the_socket st "c1" "d" ["a"; "b"; "c"]).
  - reflexivity.
  - intros Hin. repeat (apply elem_of_cons in Hin as [Hin | Hin]; [discriminate|]).
    by apply elem_of_nil in Hin.
  - intros Hin. repeat (apply elem_of_cons in Hin as [Hin | Hin]; [discriminate|]).
    by apply elem_of_nil in Hin.
Defined.

(** ** The HTTP routes: accounts and sessions *)

Lemma users_get_own o key hash : o !! key = Some hash → users_get o key = UUser hash.
Proof. intros Hk. unfold users_get. by rewrite Hk. Qed.

Lemma users_get_fresh o key :
  o !! key = None → key ∉ Object_prototype → users_get o key = UUndefined.
Proof.
  intros Hk Hp. unfold users_get. rewrite Hk. by rewrite bool_decide_eq_false_2.
Qed.

Lemma users_get_inherited o key :
  o !! key = None → key ∈ Object_prototype → users_get o key = UInherited key.
Proof.
  intros Hk Hp. unfold users_get. rewrite Hk. by rewrite bool_decide_eq_true_2.
Qed.

Lemma users_get_undefined o key :
  users_get o key = UUndefined ↔ o !! key = None ∧ key ∉ Object_prototype.
Proof.
  unfold users_get. destruct (o !! key); [by split; [|intros [? _]]|].
  case_bool_decide; split; try done; by intros [_ ?].
Qed.

(** A concrete string is not in a concrete list. *)
Ltac not_listed Hin :=
  repeat (apply elem_of_cons in Hin as [Hin | Hin]; [discriminate|]);
  by apply elem_of_nil in Hin.

Lemma falsy_key v key :
  truthy v = false → ToPropertyKey v = Normal key → key ∉ Object_prototype.
Proof.
  intros Hv Hk Hin. destruct v as [| |b|r|s|l|o]; simpl in Hv; try done.
  - injection Hk as <-. not_listed Hin.
  - injection Hk as <-. not_listed Hin.
  - destruct b; [done|]. injection Hk as <-. not_listed Hin.
  - injection Hk as <-. apply negb_false_iff, orb_true_iff in Hv as [Hv | Hv];
      apply String.eqb_eq in Hv as ->; not_listed Hin.
  - injection Hk as <-. apply negb_false_iff, String.eqb_eq in Hv as ->.
    not_listed Hin.
Qed.

(** X8: A nickname that reads as taken is refused and nothing changes: that is
    so for a nickname with an account, and in every state for every name of
    [Object.prototype] ("constructor", "toString", "__proto__", ...), under
    which no account can be made. *)
Theorem register_refuses_what_reads_as_taken
    (st : Site) (sess key : string) (body : list (string * JsValue)) :
  ToPropertyKey (body_field "nickname" body) = Normal key →
  is_Some (users st !! key) ∨ key ∈ Object_prototype →
  post_register sess body st = Responds st (send "Nickname already exists").
Proof.
  intros Hk Htaken. unfold post_register. rewrite Hk.
  destruct (users_get (users st) key) eqn:Hg; try done.
  apply users_get_undefined in Hg as [Hnone Hp].
  destruct Htaken as [[h Hh] | Hin]; [congruence | done].
Qed.

Lemma register_refuses_what_reads_as_taken_witness :
  post_register "s1" [("nickname", JStr "constructor"); ("password", JStr "pw")] site_init
  = Responds site_init (send "Nickname already exists").
Proof.
  apply (register_refuses_what_reads_as_taken site_init "s1" "constructor").
  - reflexivity.
  - right. by apply (bool_decide_unpack ("constructor" ∈ Object_prototype)).
Defined.

Lemma register_alone `{Bcrypt} st sess body key p salt :
  ToPropertyKey (body_field "nickname" body) = Normal key →
  body_field "password" body = JStr p →
  users st !! key = None → key ∉ Object_prototype →
  alone salt (post_register sess body) st =
    Responds {| users := <[key := bcrypt_hash p salt]> (users st);
                sessions := <[sess := body_field "nickname" body]> (sessions st) |}
             (redirect "/chat").
Proof.
  intros Hk Hp Hnone Hproto. unfold alone, post_register.
  rewrite Hk, Hp, users_get_fresh by done. reflexivity.
Qed.

Lemma login_alone `{Bcrypt} st sess body key p hash salt :
  ToPropertyKey (body_field "nickname" body) = Normal key →
  body_field "password" body = JStr p →
  users st !! key = Some hash →
  alone salt (post_login sess body) st =
    if bcrypt_compare p hash then
      Responds {| users := users st;
                  sessions := <[sess := body_field "nickname" body]> (sessions st) |}
               (redirect "/chat")
    else Responds st (send "Invalid credentials").
Proof.
  intros Hk Hp Hsome. unfold alone, post_login.
  rewrite Hk, Hp, (users_get_own _ _ _ Hsome). reflexivity.
Qed.

Lemma get_chat_authenticated st sess v user :
  sessions st !! sess = Some v → truthy v = true → ToString v = Normal user →
  get_chat st sess = Normal (send_chatPage user).
Proof.
  intros Hs Hv Hu. unfold get_chat, requireAuth, session_user.
  rewrite Hs. simpl. rewrite Hv, Hu. reflexivity.
Qed.

(** X9: Registering and logging in again: a registration under a fresh,
    non-empty nickname stores the hash bcrypt gives for the password and
    opens the chat page to the session; afterwards a login with the same
    nickname and password, from any session, is accepted and opens the chat
    page to that session too. *)
Theorem register_then_login `{Bcrypt}
    (st : Site) (sess sess' n p salt salt' : string) (body : list (string * JsValue)) :
  body_field "nickname" body = JStr n →
  body_field "password" body = JStr p →
  n ≠ "" → users st !! n = None → n ∉ Object_prototype →
  ∃ st1 st2,
    alone salt (post_register sess body) st = Responds st1 (redirect "/chat") ∧
    users st1 !! n = Some (bcrypt_hash p salt) ∧
    get_chat st1 sess = Normal (send_chatPage n) ∧
    alone salt' (post_login sess' body) st1 = Responds st2 (redirect "/chat") ∧
    get_chat st2 sess' = Normal (send_chatPage n).
Proof.
  intros Hn Hp Hne Hnone Hproto.
  assert (truthy (JStr n) = true) as Htruthy.
  { simpl. by rewrite (eqb_false_ne n ""). }
  eexists _, _. split.
  { apply (register_alone _ _ _ n p); [by rewrite Hn | done..]. }
  split; [simpl; apply lookup_insert_eq|]. split.
  { apply (get_chat_authenticated _ _ (JStr n));
      [simpl; rewrite Hn; apply lookup_insert_eq | done..]. }
  split.
  { rewrite (login_alone _ _ _ n p (bcrypt_hash p salt));
      [| by rewrite Hn | done | simpl; apply lookup_insert_eq].
    by rewrite bcrypt_compare_hash. }
  apply (get_chat_authenticated _ _ (JStr n));
    [simpl; rewrite Hn; apply lookup_insert_eq | done..].
Qed.

Lemma register_then_login_witness :
  let body := [("nickname", JStr "alice"); ("password", JStr "pw")] in
  ∃ st1 st2,
    @alone plain_bcrypt "salt" (post_register "s1" body) site_init
      = Responds st1 (redirect "/chat") ∧
    users st1 !! "alice" = Some (@bcrypt_hash plain_bcrypt "pw" "salt") ∧
    get_chat st1 "s1" = Normal (send_chatPage "alice") ∧
    @alone plain_bcrypt "pepper" (post_login "s2" body) st1
      = Responds st2 (redirect "/chat") ∧
    get_chat st2 "s2" = Normal (send_chatPage "alice").
Proof.
  intros body.
  apply (@register_then_login plain_bcrypt site_init "s1" "s2" "alice" "pw"
           "salt" "pepper" body); try reflexivity.
  - discriminate.
  - intros Hin. not_listed Hin.
Defined.

(** X10: A login is accepted only for a nickname that has an account and a
    password bcrypt accepts for its stored hash, and then does nothing but
    bind the nickname to the session; every other login that is answered
    gets "Invalid credentials", for an unknown nickname and for a wrong
    password alike, and changes nothing. *)
Theorem login_needs_an_account_and_its_password `{Bcrypt}
    (st st' : Site) (sess salt : string) (body : list (string * JsValue))
    (r : Response) :
  alone salt (post_login sess body) st = Responds st' r →
  (r = send "Invalid credentials" ∧ st' = st) ∨
  (r = redirect "/chat" ∧
   ∃ key p hash,
     ToPropertyKey (body_field "nickname" body) = Normal key ∧
     body_field "password" body = JStr p ∧
     users st !! key = Some hash ∧
     bcrypt_compare p hash = true ∧
     st' = {| users := users st;
              sessions := <[sess := body_field "nickname" body]> (sessions st) |}).
Proof.
  unfold alone, post_login.
  destruct (ToPropertyKey (body_field "nickname" body)) as [key|] eqn:Hk; [|done].
  unfold users_get. destruct (users st !! key) as [hash|] eqn:Hu.
  - simpl. destruct (body_field "password" body) as [| | | |p| |] eqn:Hp; try done.
    destruct (bcrypt_compare p hash) eqn:Hc.
    + intros [= <- <-]. right. split; [done|]. by exists key, p, hash.
    + intros [= <- <-]. by left.
  - case_bool_decide.
    + simpl. by destruct (body_field "password" body).
    + intros [= <- <-]. by left.
Qed.

Lemma login_needs_an_account_and_its_password_witness :
  let st := {| users := {["alice" := "pw"]}; sessions := ∅ |} in
  let body := [("nickname", JStr "alice"); ("password", JStr "pw")] in
  ∃ key p hash,
    ToPropertyKey (body_field "nickname" body) = Normal key ∧
    body_field "password" body = JStr p ∧
    users st !! key = Some hash ∧
    @bcrypt_compare plain_bcrypt p hash = true.
Proof.
  intros st body.
  destruct (@login_needs_an_account_and_its_password plain_bcrypt
              st {| users := users st; sessions := <["s2" := JStr "alice"]> (sessions st) |}
              "s2" "salt" body (redirect "/chat") eq_refl)
    as [[Hr _] | [_ (key & p & hash & Hk & Hp & Hu & Hc & _)]];
    [discriminate Hr | by exists key, p, hash].
Defined.

(** X11: A login under a name of [Object.prototype] passes the test
    [if (!user)], although there is no such account, and calls
    [bcrypt.compare] with a [passwordHash] that is [undefined]: the handler
    sends no "Invalid credentials", its promise rejects. *)
Theorem login_under_a_prototype_name_is_not_answered `{Bcrypt}
    (st : Site) (sess key salt : string) (body : list (string * JsValue)) :
  ToPropertyKey (body_field "nickname" body) = Normal key →
  key ∈ Object_prototype → users st !! key = None →
  (∃ k, post_login sess body st
        = AwaitCompare (body_field "password" body) None k) ∧
  alone salt (post_login sess body) st = Rejects.
Proof.
  intros Hk Hin Hnone. unfold alone, post_login.
  rewrite Hk, (users_get_inherited _ _ Hnone Hin). simpl.
  split; [eauto|]. by destruct (body_field "password" body).
Qed.

Lemma login_under_a_prototype_name_is_not_answered_witness :
  @alone plain_bcrypt "salt"
    (post_login "s1" [("nickname", JStr "toString"); ("password", JStr "pw")])
    site_init = Rejects.
Proof.
  apply (@login_under_a_prototype_name_is_not_answered plain_bcrypt
           site_init "s1" "toString" "salt").
  - reflexivity.
  - by apply (bool_decide_unpack ("toString" ∈ Object_prototype)).
  - reflexivity.
Defined.

(** X12: A registration under a falsy nickname (the empty string, a missing
    field, [null], [false], zero) is carried out like any other, but the
    session it binds is not taken for authenticated: [/chat] sends it back to
    [/], which shows the login page. *)
Theorem falsy_nickname_registers_but_is_not_authenticated `{Bcrypt}
    (st : Site) (sess key p salt : string) (body : list (string * JsValue)) :
  truthy (body_field "nickname" body) = false →
  ToPropertyKey (body_field "nickname" body) = Normal key →
  body_field "password" body = JStr p →
  users st !! key = None →
  ∃ st1,
    alone salt (post_register sess body) st = Responds st1 (redirect "/chat") ∧
    users st1 !! key = Some (bcrypt_hash p salt) ∧
    get_chat st1 sess = Normal (redirect "/") ∧
    get_root st1 sess = send_authPage.
Proof.
  intros Hfalsy Hk Hp Hnone.
  pose proof (falsy_key _ _ Hfalsy Hk) as Hproto.
  eexists. split; [by apply (register_alone _ _ _ key p)|].
  split; [simpl; apply lookup_insert_eq|].
  unfold get_chat, get_root, requireAuth, session_user. simpl.
  rewrite lookup_insert_eq. simpl. by rewrite Hfalsy.
Qed.

Lemma falsy_nickname_registers_but_is_not_authenticated_witness :
  let body := [("nickname", JStr ""); ("password", JStr "pw")] in
  ∃ st1,
    @alone plain_bcrypt "salt" (post_register "s1" body) site_init
      = Responds st1 (redirect "/chat") ∧
    users st1 !! "" = Some (@bcrypt_hash plain_bcrypt "pw" "salt") ∧
    get_chat st1 "s1" = Normal (redirect "/") ∧
    get_root st1 "s1" = send_authPage.
Proof.
  intros body.
  apply (@falsy_nickname_registers_but_is_not_authenticated plain_bcrypt
           site_init "s1" "" "pw" "salt" body); reflexivity.
Defined.

(** *** Two registrations at once *)




(** ** The HTTP routes: search *)

Lemma prefix_refl s : String.prefix s s = true.
Proof.
  induction s as [|a s IH]; [done|]. simpl.
  destruct (Ascii.ascii_dec a a); [exact IH | done].
Qed.

Lemma includes_empty s : includes s "" = true.
Proof. by destruct s. Qed.

Lemma includes_refl s : includes s s = true.
Proof. destruct s; [done|]. cbn [includes]. by rewrite prefix_refl. Qed.

Lemma elem_of_keys (m : gmap string string) n : n ∈ elements (dom m) ↔ is_Some (m !! n).
Proof. by rewrite elem_of_elements, elem_of_dom. Qed.

Lemma get_search_string lower st sess s :
  truthy (session_user st sess) = true →
  ∃ names,
    get_search lower st sess (JStr s) = Normal (json names) ∧
    ∀ n, n ∈ names ↔
         is_Some (users st !! n) ∧ includes (lower n) (lower s) = true.
Proof.
  intros Hauth. unfold get_search, requireAuth. rewrite Hauth. cbn [negb].
  assert ((if truthy (JStr s) then JStr s else JStr "") = JStr s) as ->.
  { simpl. destruct (String.eqb s "") eqn:Hs; [|done].
    by apply String.eqb_eq in Hs as ->. }
  pose proof (elem_of_keys (users st)) as Hkeys.
  destruct (elements (dom (users st))) as [|key keys].
  - exists []. split; [done|]. intros n. rewrite <- Hkeys.
    split; [by intros ?%elem_of_nil | by intros [?%elem_of_nil _]].
  - eexists. split; [done|]. intros n.
    by rewrite list_elem_of_In, filter_In, <- list_elem_of_In, Hkeys.
Qed.

(** X14: For an authenticated session, [/search] answers a query string with
    the registered nicknames that contain it, letter case aside, and with no
    other name: so a missing or empty [q] lists every registered nickname,
    and a registered nickname is found under its own name.  Without an
    authenticated session the answer is the redirect to [/], whatever [q]. *)
Theorem search_lists_the_matching_nicknames
    (toLowerCase : string → string) (st : Site) (sess : string) :
  toLowerCase "" = "" →
  (truthy (session_user st sess) = false →
   ∀ q, get_search toLowerCase st sess q = Normal (redirect "/")) ∧
  (truthy (session_user st sess) = true →
   (∀ q, truthy q = false →
      ∃ names, get_search toLowerCase st sess q = Normal (json names) ∧
               ∀ n, n ∈ names ↔ is_Some (users st !! n)) ∧
   (∀ s, ∃ names,
      get_search toLowerCase st sess (JStr s) = Normal (json names) ∧
      (∀ n, n ∈ names ↔
            is_Some (users st !! n) ∧
            includes (toLowerCase n) (toLowerCase s) = true) ∧
      (is_Some (users st !! s) → s ∈ names))).
Proof.
  intros Hlower. split.
  { intros Hno q. unfold get_search, requireAuth. by rewrite Hno. }
  intros Hauth. split.
  - intros q Hq.
    destruct (get_search_string toLowerCase st sess "" Hauth) as (names & Hs & Hn).
    exists names. split.
    + rewrite <- Hs. unfold get_search. by rewrite Hq.
    + intros n. rewrite Hn, Hlower, includes_empty. tauto.
  - intros s.
    destruct (get_search_string toLowerCase st sess s Hauth) as (names & Hs & Hn).
    exists names. split; [done|]. split; [done|].
    intros Hreg. apply Hn. split; [done | apply includes_refl].
Qed.

Lemma search_lists_the_matching_nicknames_witness :
  let st := {| users := {["Alice" := "h1"; "bob" := "h2"]};
               sessions := {["s1" := JStr "bob"]} |} in
  ∃ names, get_search (λ s, s) st "s1" JUndefined = Normal (json names) ∧
           ∀ n, n ∈ names ↔ is_Some (users st !! n).
Proof.
  intros st.
  destruct (search_lists_the_matching_nicknames (λ s, s) st "s1" eq_refl)
    as [_ Hauth].
  destruct (Hauth eq_refl) as [Hall _]. exact (Hall JUndefined eq_refl).
Defined.

(** X15: A query that is truthy and not a string (an array or an object, as
    [?q[]=a] gives) has no [toLowerCase]: the route throws as soon as there
    is one account to test, and answers the empty list while there is
    none. *)
Theorem search_with_a_query_that_is_no_string
    (toLowerCase : string → string) (st : Site) (sess : string) (q : JsValue) :
  truthy (session_user st sess) = true →
  truthy q = true → (∀ s, q ≠ JStr s) →
  (users st = ∅ → get_search toLowerCase st sess q = Normal (json [])) ∧
  (users st ≠ ∅ → get_search toLowerCase st sess q = ThrowTypeError).
Proof.
  intros Hauth Hq Hns. unfold get_search, requireAuth.
  rewrite Hauth, Hq. cbn [negb]. split.
  - intros ->. by rewrite dom_empty_L, elements_empty.
  - intros Hne. destruct (elements (dom (users st))) as [|key keys] eqn:Hk.
    + apply elements_empty_inv, leibniz_equiv, dom_empty_inv_L in Hk. done.
    + destruct q; try done. by destruct (Hns s).
Qed.

Lemma search_with_a_query_that_is_no_string_witness :
  let st := {| users := {["alice" := "h1"]}; sessions := {["s1" := JStr "alice"]} |} in
  get_search (λ s, s) st "s1" (JArr [JStr "a"]) = ThrowTypeError.
Proof.
  intros st.
  apply (search_with_a_query_that_is_no_string (λ s, s) st "s1" (JArr [JStr "a"]));
    try reflexivity; discriminate.
Defined.

(** ** The HTTP routes: what every run keeps *)

Lemma site_init_inv : site_inv site_init.
Proof.
  split; simpl.
  - intros key _. apply lookup_empty.
  - intros sess v. by rewrite lookup_empty.
Qed.

Lemma settles_well_mono `{Bcrypt} st1 st2 a :
  dom (users st1) ⊆ dom (users st2) → settles_well st1 a → settles_well st2 a.
Proof.
  intros Hsub Ha salt st' Hinv Hdom. apply Ha; [done|]. set_solver.
Qed.

Lemma bind_session_inv st sess v key hash :
  site_inv st → ToPropertyKey v = Normal key → key ∉ Object_prototype →
  site_inv {| users := <[key := hash]> (users st);
              sessions := <[sess := v]> (sessions st) |}.
Proof.
  intros [Hp Hs] Hk Hproto. split; simpl.
  - intros k Hin. rewrite lookup_insert_ne by (by intros ->). by apply Hp.
  - intros s v'. destruct (decide (sess = s)) as [->|Hne].
    + rewrite lookup_insert_eq. intros [= <-]. exists key.
      split; [done|]. rewrite lookup_insert_eq. eauto.
    + rewrite lookup_insert_ne by done. intros (k & Hk' & Hreg)%Hs.
      exists k. split; [done|]. destruct (decide (key = k)) as [->|Hkk].
      * rewrite lookup_insert_eq. eauto.
      * by rewrite lookup_insert_ne.
Qed.

Lemma login_session_inv st sess v key :
  site_inv st → ToPropertyKey v = Normal key → is_Some (users st !! key) →
  site_inv {| users := users st; sessions := <[sess := v]> (sessions st) |}.
Proof.
  intros [Hp Hs] Hk Hreg. split; simpl; [done|].
  intros s v'. destruct (decide (sess = s)) as [->|Hne].
  - rewrite lookup_insert_eq. intros [= <-]. by exists key.
  - rewrite lookup_insert_ne by done. apply Hs.
Qed.

Lemma post_register_starts_well `{Bcrypt} st sess body :
  starts_well st (post_register sess body st).
Proof.
  unfold post_register.
  destruct (ToPropertyKey (body_field "nickname" body)) as [key|] eqn:Hk; [|done].
  destruct (users_get (users st) key) eqn:Hg; try done.
  apply users_get_undefined in Hg as [_ Hproto].
  intros salt st' Hinv Hdom. simpl.
  destruct (body_field "password" body); try done.
  split; [by apply bind_session_inv|]. simpl. rewrite dom_insert_L. set_solver.
Qed.

Lemma post_login_starts_well `{Bcrypt} st sess body :
  starts_well st (post_login sess body st).
Proof.
  unfold post_login.
  destruct (ToPropertyKey (body_field "nickname" body)) as [key|] eqn:Hk; [|done].
  unfold users_get. destruct (users st !! key) as [hash|] eqn:Hu.
  - intros salt st' Hinv Hdom. simpl.
    destruct (body_field "password" body); try done.
    destruct (bcrypt_compare _ _); [|done]. split; [|done].
    apply (login_session_inv _ _ _ key); [done..|].
    apply elem_of_dom, Hdom, elem_of_dom. eauto.
  - case_bool_decide; [|done]. intros salt st' Hinv Hdom. simpl.
    by destruct (body_field "password" body).
Qed.

Lemma absorb_start `{Bcrypt} a w :
  world_inv w → starts_well (site w) a →
  world_inv (absorb a w) ∧ site (absorb a w) = site w.
Proof.
  intros [Hs Hp] Ha. destruct a as [st' r| |data k|data hash k]; simpl in *.
  - subst st'. done.
  - done.
  - split; [|done]. split; [done|]. apply Forall_app. split; [done|].
    by constructor.
  - split; [|done]. split; [done|]. apply Forall_app. split; [done|].
    by constructor.
Qed.

Lemma loop_inv `{Bcrypt} ev w :
  world_inv w →
  world_inv (loop ev w) ∧ dom (users (site w)) ⊆ dom (users (site (loop ev w))).
Proof.
  intros Hw. destruct ev as [sess body|sess body|i salt]; simpl.
  - destruct (absorb_start (post_register sess body (site w)) w Hw
                (post_register_starts_well _ _ _)) as [? ->]. done.
  - destruct (absorb_start (post_login sess body (site w)) w Hw
                (post_login_starts_well _ _ _)) as [? ->]. done.
  - destruct (pending w !! i) as [a|] eqn:Hi; [|done].
    destruct Hw as [Hs Hp].
    assert (Forall (settles_well (site w)) (delete i (pending w))) as Hrest.
    { by apply Forall_delete. }
    assert (settles_well (site w) a) as Ha.
    { rewrite Forall_forall in Hp. eapply Hp, list_elem_of_lookup_2. done. }
    specialize (Ha salt (site w) Hs (reflexivity _)).
    destruct (bcrypt_settle salt a (site w)) as [st'' r| | |]; simpl; try done.
    destruct Ha as [Hinv Hdom]. split; [|done]. split; [done|]. simpl.
    eapply Forall_impl; [done|]. intros b. by apply settles_well_mono.
Qed.

Lemma loop_run_inv `{Bcrypt} evs w :
  world_inv w →
  world_inv (loop_run evs w) ∧
  dom (users (site w)) ⊆ dom (users (site (loop_run evs w))).
Proof.
  revert w. induction evs as [|ev evs IH]; intros w Hw; [done|].
  destruct (loop_inv ev w Hw) as [Hw1 Hd1].
  destruct (IH _ Hw1) as [Hw2 Hd2]. simpl. split; [done|]. by etrans.
Qed.

Lemma world_init_inv `{Bcrypt} : world_inv world_init.
Proof. split; [apply site_init_inv | constructor]. Qed.

(** X16: Whatever registrations and logins arrive, and however bcrypt's
    answers fall between them: no account ever sits under a name of
    [Object.prototype]; and a session that passes [requireAuth] is bound to a
    nickname with an account, and [/chat] serves it the page of that
    nickname without throwing. *)
Theorem sessions_belong_to_accounts `{Bcrypt} (evs : list LoopEvent) :
  let st := site (loop_run evs world_init) in
  (∀ key, key ∈ Object_prototype → users st !! key = None) ∧
  (∀ sess, truthy (session_user st sess) = true →
     ∃ user, get_chat st sess = Normal (send_chatPage user) ∧
             is_Some (users st !! user)).
Proof.
  destruct (loop_run_inv evs world_init world_init_inv) as [[[Hp Hs] _] _].
  split; [done|]. intros sess Hauth. unfold session_user in Hauth.
  destruct (sessions (site (loop_run evs world_init)) !! sess) as [v|] eqn:Hv;
    [|done].
  destruct (Hs _ _ Hv) as (key & Hk & Hreg).
  exists key. split; [|done]. by apply (get_chat_authenticated _ _ v).
Qed.

Lemma sessions_belong_to_accounts_witness :
  let body := [("nickname", JArr [JStr "alice"]); ("password", JStr "pw")] in
  let st := site (@loop_run plain_bcrypt [PostRegister "s1" body; Settle 0 "a"]
                    world_init) in
  truthy (session_user st "s1") = true ∧
  ∃ user, get_chat st "s1" = Normal (send_chatPage user) ∧
          is_Some (users st !! user).
Proof.
  intros body st. split; [reflexivity|].
  apply (@sessions_belong_to_accounts plain_bcrypt
           [PostRegister "s1" body; Settle 0 "a"]).
  reflexivity.
Defined.

(** X17: No route removes an account: a nickname that is registered at some
    point of a run is registered at every later point (its hash may have
    been replaced, by a registration that was waiting on bcrypt). *)
Theorem accounts_are_never_removed `{Bcrypt}
    (evs1 evs2 : list LoopEvent) (n : string) :
  is_Some (users (site (loop_run evs1 world_init)) !! n) →
  is_Some (users (site (loop_run (evs1 ++ evs2) world_init)) !! n).
Proof.
  intros Hreg. unfold loop_run. rewrite foldl_app.
  destruct (loop_run_inv evs1 world_init world_init_inv) as [Hw _].
  destruct (loop_run_inv evs2 _ Hw) as [_ Hdom].
  apply elem_of_dom, Hdom, elem_of_dom. done.
Qed.

Lemma accounts_are_never_removed_witness :
  let body := [("nickname", JStr "alice"); ("password", JStr "pw")] in
  let evs1 := [PostRegister "s1" body; Settle 0 "a"] in
  let evs2 := [PostLogin "s2" body; PostRegister "s3" body; Settle 0 "b"] in
  is_Some (users (site (@loop_run plain_bcrypt (evs1 ++ evs2) world_init)) !! "alice").
Proof.
  intros body evs1 evs2.
  apply (@accounts_are_never_removed plain_bcrypt evs1 evs2 "alice").
  vm_compute. eauto.
Defined.
